(** * generate_citypacks.py: a shallow embedding and its properties

    The script builds, for every configured city, a "pack" of up to four
    news stories with an emoji and a clue per story.  This file embeds
    the functions of [generate_citypacks.py] and proves the properties
    its specification states about them.

    Python [str] values are sequences of Unicode code points, so a
    string is a [list N] here and [len] is [length].  Literals are
    written as UTF-8 text and decoded by [u]. *)

From Stdlib Require Import String Ascii NArith ZArith Bool Lia List.
Import ListNotations.

Set Implicit Arguments.

(** ** Python strings *)

Module PyStr.

Definition cp := N.
Definition pystr := list cp.

Definition cp_eqb : cp -> cp -> bool := N.eqb.

(** UTF-8 decoding of the bytes of a literal: [pending] continuation
    bytes are still expected for the code point accumulated in [acc]. *)
Fixpoint utf8_decode (pending : nat) (acc : N) (bs : list N) : pystr :=
  match bs with
  | [] => []
  | b :: rest =>
      match pending with
      | O =>
          if (b <? 128)%N then b :: utf8_decode 0 0%N rest
          else if (b <? 224)%N then utf8_decode 1 (b - 192)%N rest
          else if (b <? 240)%N then utf8_decode 2 (b - 224)%N rest
          else utf8_decode 3 (b - 240)%N rest
      | S O => (acc * 64 + (b - 128))%N :: utf8_decode 0 0%N rest
      | S k => utf8_decode k (acc * 64 + (b - 128))%N rest
      end
  end.

Definition u (s : string) : pystr :=
  utf8_decode 0 0%N (map N_of_ascii (list_ascii_of_string s)).

(** [str.encode("utf-8")]: the bytes of one code point; a surrogate
    (U+D800 to U+DFFF) cannot be encoded. *)
Definition utf8_encode_cp (c : cp) : option (list N) :=
  (if c <? 128 then Some [c]
   else if c <? 2048 then Some [192 + c / 64; 128 + c mod 64]
   else if (55296 <=? c) && (c <=? 57343) then None
   else if c <? 65536 then
     Some [224 + c / 4096; 128 + (c / 64) mod 64; 128 + c mod 64]
   else if c <? 1114112 then
     Some [240 + c / 262144; 128 + (c / 4096) mod 64;
           128 + (c / 64) mod 64; 128 + c mod 64]
   else None)%N.

Fixpoint utf8_encode (s : pystr) : option (list N) :=
  match s with
  | [] => Some []
  | c :: s' =>
      match utf8_encode_cp c, utf8_encode s' with
      | Some bs, Some rest => Some (bs ++ rest)
      | _, _ => None
      end
  end.

(** [x in y] for strings: [x] occurs as a contiguous slice of [y]. *)
Fixpoint startswith (x y : pystr) : bool :=
  match x, y with
  | [], _ => true
  | _ :: _, [] => false
  | a :: x', b :: y' => cp_eqb a b && startswith x' y'
  end.

Fixpoint contains (x y : pystr) : bool :=
  startswith x y ||
  match y with
  | [] => false
  | _ :: y' => contains x y'
  end.

(** The code points for which [str.isspace] holds of a single
    character (CPython's [_PyUnicode_IsWhitespace]); [str.strip()]
    without argument and the regex class [\s] both use this set. *)
Definition isspace (c : cp) : bool :=
  ((9 <=? c) && (c <=? 13) || (28 <=? c) && (c <=? 32) ||
   (c =? 133) || (c =? 160) || (c =? 5760) ||
   (8192 <=? c) && (c <=? 8202) || (c =? 8232) || (c =? 8233) ||
   (c =? 8239) || (c =? 8287) || (c =? 12288))%N.

Fixpoint lstrip (s : pystr) : pystr :=
  match s with
  | c :: s' => if isspace c then lstrip s' else s
  | [] => []
  end.

(** [rstrip] keeps a character when it is not a space or when
    something survives to its right. *)
Fixpoint rstrip (s : pystr) : pystr :=
  match s with
  | [] => []
  | c :: s' =>
      match rstrip s' with
      | [] => if isspace c then [] else [c]
      | r => c :: r
      end
  end.

Definition strip (s : pystr) : pystr := rstrip (lstrip s).

(** [s[:n]] for a non-negative [n]. *)
Definition slice_to (n : nat) (s : pystr) : pystr := firstn n s.

(** [s.rsplit(" ", 1)[0]]: the text before the last U+0020, or all of
    [s] when it holds none.  [before_last_space] finds the cut. *)
Fixpoint before_last_space (s : pystr) : option pystr :=
  match s with
  | [] => None
  | c :: s' =>
      match before_last_space s' with
      | Some p => Some (c :: p)
      | None => if cp_eqb c 32%N then Some [] else None
      end
  end.

Definition rsplit1_head (s : pystr) : pystr :=
  match before_last_space s with
  | Some p => p
  | None => s
  end.

End PyStr.
Import PyStr.

(** ** The regular expressions of the script

    Two shapes of pattern occur.  [EMOJI_RULES] holds alternations of
    literal words compiled with [re.I]; [clue_from_title] uses one
    anchored sequence of character classes.  Both are matched the way
    the backtracking engine of [re] matches them. *)

Module Re.

(** [lowers_to lo c]: the simple lower-case mapping of [c] is [lo].
    For an ASCII lower-case letter [lo] these are the letter itself,
    its capital, and U+0130 for [i], U+212A for [k]; a character that
    is not a letter only equals itself.  The patterns of this script
    hold ASCII letters only. *)
Definition ascii_lower (c : cp) : bool := ((97 <=? c) && (c <=? 122))%N.

Definition lowers_to (lo c : cp) : bool :=
  if ascii_lower lo then
    ((c =? lo) || (c =? lo - 32) ||
     (lo =? 105) && (c =? 304) || (lo =? 107) && (c =? 8490))%N
  else (c =? lo)%N.

(** With [re.I] on a [str] pattern a literal [lo] is compiled to a test
    of the lower-cased subject character against [lo] and against the
    case-fix partners of [lo]: dotless i (U+0131) for [i] and long s
    (U+017F) for [s]. *)
Definition literal_ignore (lo c : cp) : bool :=
  (lowers_to lo c ||
   (lo =? 105) && (c =? 305) || (lo =? 115) && (c =? 383))%N.

(** A literal word matched at the start of the subject. *)
Fixpoint match_word (w s : pystr) : bool :=
  match w, s with
  | [], _ => true
  | _ :: _, [] => false
  | a :: w', c :: s' => literal_ignore a c && match_word w' s'
  end.

(** A compiled pattern [w1|w2|...|wn]: the words, in order. *)
Definition pattern := list pystr.

Fixpoint split_bar (cur : pystr) (src : pystr) : list pystr :=
  match src with
  | [] => [rev cur]
  | c :: rest =>
      if cp_eqb c 124%N then rev cur :: split_bar [] rest
      else split_bar (c :: cur) rest
  end.

(** [re.compile(src, re.I)] for a source that is an alternation of
    lower-case words. *)
Definition compile_I (src : string) : pattern := split_bar [] (u src).

Definition match_here (rx : pattern) (s : pystr) : bool :=
  existsb (fun w => match_word w s) rx.

(** [bool(rx.search(s))]: the engine tries every start position from
    the left and, at each, the alternatives in order. *)
Fixpoint search (rx : pattern) (s : pystr) : bool :=
  match_here rx s ||
  match s with
  | [] => false
  | _ :: s' => search rx s'
  end.

(** Items of an anchored sequence pattern: one character of a class,
    or a greedy [+] of a class. *)
Inductive item : Type :=
| One (cls : cp -> bool)
| Plus (cls : cp -> bool).

(** Zero or more characters of [cls], longest first, then the rest of
    the pattern [k]; on failure of [k] one character is given back. *)
Fixpoint greedy_star (cls : cp -> bool) (k : pystr -> option pystr)
    (s : pystr) : option pystr :=
  match s with
  | c :: s' =>
      if cls c then
        match greedy_star cls k s' with
        | Some r => Some r
        | None => k s
        end
      else k s
  | [] => k []
  end.

(** [match_items items s] is the text left after a match of [items] at
    the start of [s], if there is one. *)
Fixpoint match_items (items : list item) (s : pystr) : option pystr :=
  match items with
  | [] => Some s
  | One cls :: rest =>
      match s with
      | c :: s' => if cls c then match_items rest s' else None
      | [] => None
      end
  | Plus cls :: rest =>
      match s with
      | c :: s' => if cls c then greedy_star cls (match_items rest) s' else None
      | [] => None
      end
  end.

(** [re.sub("^" + items, "", s)]: without [re.M] the anchor holds at
    index 0 only, so at most one match, at the start, is removed. *)
Definition sub_prefix (items : list item) (s : pystr) : pystr :=
  match match_items items s with
  | Some rest => rest
  | None => s
  end.

End Re.

(** ** Emoji heuristic *)

Definition EMOJI_RULES : list (Re.pattern * pystr) :=
  [ (Re.compile_I "subway|metro|rail|train|airport|flight|transit", u "🚇");
    (Re.compile_I "storm|snow|rain|flood|heat|wildfire|earthquake|hurricane", u "🌧️");
    (Re.compile_I "mayor|council|parliament|congress|government|policy|election", u "🏛️");
    (Re.compile_I "court|judge|trial|lawsuit|legal", u "⚖️");
    (Re.compile_I "music|festival|concert|tour", u "🎶");
    (Re.compile_I "art|museum|exhibit|gallery|theater|theatre|broadway|film", u "🎭");
    (Re.compile_I "soccer|football|nba|nfl|mlb|nhl|win|beat|match|game", u "🏟️");
    (Re.compile_I "restaurant|food|chef|dining", u "🍽️");
    (Re.compile_I "tech|ai|startup|software|chip|cyber", u "💻");
    (Re.compile_I "port|harbor|harbour|ship|cruise", u "⚓️") ].

Definition DEFAULT_EMOJI : pystr := u "📰".

(** [title or ""] *)
Definition or_empty (title : option pystr) : pystr :=
  match title with
  | Some t => t
  | None => []
  end.

Fixpoint first_rule (rules : list (Re.pattern * pystr)) (subject : pystr)
    : pystr :=
  match rules with
  | [] => DEFAULT_EMOJI
  | (rx, em) :: rest =>
      if Re.search rx subject then em else first_rule rest subject
  end.

Definition pick_emoji (title : option pystr) : pystr :=
  first_rule EMOJI_RULES (or_empty title).


(** ** Effects

    The script talks to the network and reads the clock.  A computation
    is a function of the state of that outside world which returns a
    value or raises, together with the world afterwards. *)

Module Eff.

(** An instance of Python's [Exception], by class name. *)
Inductive exception : Type := Exception (cls : pystr).

Inductive result (A : Type) : Type :=
| Ok (a : A)
| Raise (e : exception).
Arguments Raise {A} e.

Definition IO (W A : Type) : Type := W -> result A * W.

Definition ret {W A} (a : A) : IO W A := fun w => (Ok a, w).

Definition bind {W A B} (m : IO W A) (f : A -> IO W B) : IO W B :=
  fun w =>
    match m w with
    | (Ok a, w') => f a w'
    | (Raise e, w') => (Raise e, w')
    end.

(** [try: m  except Exception: h] *)
Definition try_except {W A} (m : IO W A) (h : IO W A) : IO W A :=
  fun w =>
    match m w with
    | (Ok a, w') => (Ok a, w')
    | (Raise _, w') => h w'
    end.

(** A pure call that returns or raises. *)
Definition from_result {W A} (r : result A) : IO W A := fun w => (r, w).

(** A call that cannot raise. *)
Definition lift {W A} (f : W -> A * W) : IO W A :=
  fun w => let (a, w') := f w in (Ok a, w').

End Eff.
Import Eff.

Notation "x <- m ;; k" := (bind m (fun x => k))
  (at level 61, m at next level, right associativity).

(** ** Feed query *)

(** [urllib.parse.quote(s)] with its default [safe="/"]: letters,
    digits and [_.-~/] stay, every other byte of the UTF-8 encoding
    becomes [%XX]. *)
Definition always_safe (b : N) : bool :=
  ((65 <=? b) && (b <=? 90) || (97 <=? b) && (b <=? 122) ||
   (48 <=? b) && (b <=? 57) ||
   (b =? 95) || (b =? 46) || (b =? 45) || (b =? 126))%N.

Definition hex_digit (d : N) : cp :=
  (if d <? 10 then 48 + d else 55 + d)%N.

Definition quote_byte (b : N) : pystr :=
  if always_safe b || (b =? 47)%N then [b]
  else [37%N; hex_digit (b / 16); hex_digit (b mod 16)].

Definition quote (s : pystr) : result pystr :=
  match utf8_encode s with
  | Some bs => Ok (flat_map quote_byte bs)
  | None => Raise (Exception (u "UnicodeEncodeError"))
  end.

Definition rss_url (query hl gl ceid : pystr) : result pystr :=
  match quote query with
  | Ok q =>
      Ok (u "https://news.google.com/rss/search?q=" ++ q ++
          u "&hl=" ++ hl ++ u "&gl=" ++ gl ++ u "&ceid=" ++ ceid)
  | Raise e => Raise e
  end.

(** [rss_url(query)] with the defaults of its keyword arguments. *)
Definition rss_url_default (query : pystr) : result pystr :=
  rss_url query (u "en-US") (u "US") (u "US:en").

(** ** Data of the script *)

(** [getattr(obj, name, default)] on an attribute that may be absent. *)
Definition getattr {A} (field : option A) (default : A) : A :=
  match field with
  | Some v => v
  | None => default
  end.

(** [a or b] on strings. *)
Definition str_or (a b : pystr) : pystr :=
  match a with
  | [] => b
  | _ :: _ => a
  end.

(** The [source] of a feed entry, when the entry has a non-empty one. *)
Record Source : Type := { source_title : option pystr }.

(** A feed entry as [feedparser] hands it over; every attribute the
    script reads goes through [getattr] and may be absent. *)
Record Entry : Type := {
  title : option pystr;
  link : option pystr;
  source : option Source;
  publisher : option pystr;
  author : option pystr
}.

Record Story : Type := {
  headline : pystr;
  story_source : pystr;
  url : pystr
}.

Record Card : Type := {
  emoji : pystr;
  clue : pystr
}.

Record CityItem : Type := { city : pystr }.

Record Pack : Type := {
  pack_city : pystr;
  cards : list Card;
  stories : list Story
}.

(** ** Clue formatter *)

Definition starters : list pystr :=
  [ u "Yesterday, the front page led with: ";
    u "Yesterday, everyone was talking about: ";
    u "Yesterday, a headline that stood out: ";
    u "Yesterday, the biggest buzz was about: " ].

Definition upper_AZ (c : cp) : bool := ((65 <=? c) && (c <=? 90))%N.

(** The class [[A-Za-z\s\-]]. *)
Definition letter_space_dash (c : cp) : bool :=
  (upper_AZ c || Re.ascii_lower c || isspace c || (c =? 45))%N.

Definition em_dash (c : cp) : bool := (c =? 8212)%N.

(** [^[A-Z][A-Za-z\s\-]+\s+—\s+] *)
Definition CITY_PREFIX : list Re.item :=
  [ Re.One upper_AZ; Re.Plus letter_space_dash; Re.Plus isspace;
    Re.One em_dash; Re.Plus isspace ].

(** The title text of a clue before the lead-in is prepended: stripped
    and freed of a leading city name. *)
Definition strip_city (title : pystr) : pystr :=
  Re.sub_prefix CITY_PREFIX (strip title).

(** "Shorten long titles". *)
Definition shorten (t : pystr) : pystr :=
  if (95 <? length t)%nat then rsplit1_head (slice_to 92 t) ++ u "…"
  else t.

(** [starters[now % len(starters)]] for [now = int(time.time())]. *)
Definition starter_at (now : Z) : pystr :=
  nth (Z.to_nat (now mod Z.of_nat (length starters))) starters [].

Section Program.

Variable World : Type.

(** [int(time.time())]: the clock, read in whole seconds. *)
Variable unix_time : World -> Z * World.

(** [requests.get(url, allow_redirects=True, ...).url]: the final URL,
    or an exception of the request. *)
Variable requests_get : pystr -> IO World pystr.

(** [feedparser.parse(url).entries] *)
Variable feed_entries : pystr -> IO World (list Entry).

Definition resolve_url (link0 : pystr) : IO World pystr :=
  try_except (requests_get link0) (ret link0).

Definition clue_from_title (title0 : pystr) : IO World pystr :=
  let t := strip_city title0 in
  now <- lift unix_time ;;
  let s := starter_at now in
  ret (s ++ shorten t).

(** *** The per-city loop of [main] *)

Inductive flow : Type :=
| Next (stories : list Story)
| Break (stories : list Story).

Definition src_name (e : Entry) : pystr :=
  let name :=
    match source e with
    | Some src => getattr (source_title src) []
    | None => []
    end in
  match name with
  | [] => str_or (getattr (publisher e) [])
            (str_or (getattr (author e) []) (u "Source"))
  | _ :: _ => name
  end.

Definition is_empty (s : pystr) : bool :=
  match s with
  | [] => true
  | _ :: _ => false
  end.

(** One pass through the body of [for e in entries]. *)
Definition loop_body (e : Entry) (acc : list Story) : IO World flow :=
  let title1 := strip (getattr (title e) []) in
  let link1 := strip (getattr (link e) []) in
  if is_empty title1 || is_empty link1 then ret (Next acc)
  else
    pub_url <- resolve_url link1 ;;
    if contains (u "news.google") pub_url then ret (Next acc)
    else
      let acc' :=
        acc ++ [ {| headline := title1;
                    story_source := slice_to 40 (src_name e);
                    url := pub_url |} ] in
      if (4 <=? length acc')%nat then ret (Break acc') else ret (Next acc').

Fixpoint resolve_loop (entries : list Entry) (acc : list Story)
    : IO World (list Story) :=
  match entries with
  | [] => ret acc
  | e :: rest =>
      r <- loop_body e acc ;;
      match r with
      | Next acc' => resolve_loop rest acc'
      | Break acc' => ret acc'
      end
  end.

(** The story made from a raw entry when slots are left. *)
Definition rss_story (e : Entry) : Story :=
  {| headline := str_or (strip (getattr (title e) [])) (u "Headline");
     story_source := u "Google News";
     url := strip (getattr (link e) []) |}.

(** [while len(stories) < 4 and len(entries) > len(stories)]: [slots]
    is [4 - len(stories)], and the entry read is [entries[len(stories)]]. *)
Fixpoint backfill_loop (slots : nat) (entries : list Entry)
    (acc : list Story) : list Story :=
  match slots with
  | O => acc
  | S slots' =>
      match nth_error entries (length acc) with
      | Some e => backfill_loop slots' entries (acc ++ [rss_story e])
      | None => acc
      end
  end.

Definition backfill (entries : list Entry) (acc : list Story) : list Story :=
  backfill_loop (4 - length acc) entries acc.

Definition make_card (s : Story) : IO World Card :=
  let em := pick_emoji (Some (headline s)) in
  cl <- clue_from_title (headline s) ;;
  ret {| emoji := em; clue := cl |}.

Fixpoint make_cards (ss : list Story) : IO World (list Card) :=
  match ss with
  | [] => ret []
  | s :: rest =>
      c <- make_card s ;;
      cs <- make_cards rest ;;
      ret (c :: cs)
  end.

(** The stories of one city from the entries of its feed: the two
    loops of [main] that follow [entries = feed.entries[:8]]. *)
Definition city_stories (feed : list Entry) : IO World (list Story) :=
  let entries := firstn 8 feed in
  found <- resolve_loop entries [] ;;
  ret (backfill entries found).

Definition city_pack (item : CityItem) : IO World Pack :=
  let query := city item ++ u " when:21d" in
  feed_url <- from_result (rss_url_default query) ;;
  feed <- feed_entries feed_url ;;
  all <- city_stories feed ;;
  cs <- make_cards (firstn 4 all) ;;
  ret {| pack_city := city item; cards := cs; stories := firstn 4 all |}.

Fixpoint main_packs (cities : list CityItem) : IO World (list Pack) :=
  match cities with
  | [] => ret []
  | item :: rest =>
      p <- city_pack item ;;
      ps <- main_packs rest ;;
      ret (p :: ps)
  end.

End Program.

(** ** Notions the properties are stated with *)

(** [ci_equal w m]: the slice [m] of a subject is the word [w] up to
    letter case, character by character. *)
Definition ci_equal (w m : pystr) : Prop :=
  Forall2 (fun a c => Re.literal_ignore a c = true) w m.

(** The value [resolve_url] returns in world [w]. *)
Definition resolved {World : Type} (requests_get : pystr -> IO World pystr)
    (link0 : pystr) (w : World) : pystr :=
  match fst (requests_get link0 w) with
  | Ok final => final
  | Raise _ => link0
  end.

(** The story the resolve loop makes of entry [e] when the request for
    its link is made in world [w]. *)
Definition story_of {World : Type} (requests_get : pystr -> IO World pystr)
    (e : Entry) (w : World) : Story :=
  {| headline := strip (getattr (title e) []);
     story_source := slice_to 40 (src_name e);
     url := resolved requests_get (strip (getattr (link e) [])) w |}.

(** A card is made of a story: its emoji is [pick_emoji] of the
    headline and its clue is [clue_from_title] of the headline, called
    at some state [wc] of the world. *)
Definition card_of {World : Type} (unix_time : World -> Z * World)
    (c : Card) (s : Story) : Prop :=
  emoji c = pick_emoji (Some (headline s)) /\
  exists wc, fst (clue_from_title unix_time (headline s) wc) = Ok (clue c).

(** ASCII capitals lowered, every other character as it is. *)
Definition ascii_lowercase (c : cp) : cp :=
  if upper_AZ c then (c + 32)%N else c.

(** A pattern whose words are written in lower-case ASCII letters. *)
Definition lowercase_pattern (rx : Re.pattern) : bool :=
  forallb (forallb Re.ascii_lower) rx.

(** A surrogate code point (U+D800 to U+DFFF). *)
Definition surrogate (c : cp) : bool := ((55296 <=? c) && (c <=? 57343))%N.

(** The characters that [quote] leaves as they are. *)
Definition url_safe (c : cp) : bool := always_safe c || (c =? 47)%N.

(** [kept requests_get found entries]: the stories [found] are made,
    in feed order, of some of the [entries], each of them with a title
    and a link and with a resolved URL that does not hold
    "news.google". *)
Inductive kept {World : Type} (requests_get : pystr -> IO World pystr)
    : list Story -> list Entry -> Prop :=
| kept_none (entries : list Entry) : kept requests_get [] entries
| kept_skip (e : Entry) (entries : list Entry) (found : list Story) :
    kept requests_get found entries ->
    kept requests_get found (e :: entries)
| kept_take (e : Entry) (entries : list Entry) (found : list Story)
    (w : World) :
    strip (getattr (title e) []) <> [] ->
    strip (getattr (link e) []) <> [] ->
    contains (u "news.google") (url (story_of requests_get e w)) = false ->
    kept requests_get found entries ->
    kept requests_get (story_of requests_get e w :: found) (e :: entries).

(** What every story of a pack satisfies. *)
Definition story_filled (s : Story) : Prop :=
  headline s <> [] /\
  story_source s <> [] /\
  length (story_source s) <= 40 /\
  (contains (u "news.google") (url s) = true ->
   story_source s = u "Google News").

(** ** The aggregator's domain, in the specification's words

    The specification speaks of the domain of a resolved URL matching
    the aggregator's own domain.  [spec_domain] is the host of a URL:
    what stands between the scheme's [//] and the next [/], [?] or
    [#]; it matches when it holds [news.google]. *)

Fixpoint take_host (s : pystr) : pystr :=
  match s with
  | [] => []
  | c :: s' =>
      if ((c =? 47) || (c =? 63) || (c =? 35))%N then [] else c :: take_host s'
  end.

Fixpoint after_slashes (s : pystr) : option pystr :=
  match s with
  | [] => None
  | c :: s' =>
      if startswith (u "//") s then Some (skipn 2 s) else after_slashes s'
  end.

Definition spec_domain (link0 : pystr) : pystr :=
  match after_slashes link0 with
  | Some rest => take_host rest
  | None => take_host link0
  end.

Definition spec_aggregator_domain (link0 : pystr) : bool :=
  contains (u "news.google") (spec_domain link0).

(** ** A concrete outside world

    Used to run the script on explicit feeds: the world is the clock in
    whole seconds, every request takes one second, and the network is
    a table from feed links to the publisher URL they redirect to; a
    link outside the table fails to connect. *)

Module Sample.

Definition World : Type := Z.

Definition unix_time (w : World) : Z * World := (w, w).

Fixpoint str_eqb (a b : pystr) : bool :=
  match a, b with
  | [], [] => true
  | x :: a', y :: b' => cp_eqb x y && str_eqb a' b'
  | _, _ => false
  end.

Fixpoint lookup {A} (k : pystr) (table : list (pystr * A)) : option A :=
  match table with
  | [] => None
  | (k', v) :: rest => if str_eqb k k' then Some v else lookup k rest
  end.

Definition redirects : list (pystr * pystr) :=
  [ (u "https://news.google.com/rss/articles/a1",
     u "https://www.example.com/story?utm_source=news.google.com");
    (u "https://news.google.com/rss/articles/a2", u "https://www.example.com/a2");
    (u "https://news.google.com/rss/articles/a3", u "https://www.example.com/a3");
    (u "https://news.google.com/rss/articles/a4", u "https://www.example.com/a4");
    (u "https://news.google.com/rss/articles/a5", u "https://www.example.com/a5");
    (u "https://news.google.com/rss/articles/a6", u "https://www.example.com/a6");
    (u "https://news.google.com/rss/articles/a7", u "https://www.example.com/a7");
    (u "https://news.google.com/rss/articles/a8", u "https://www.example.com/a8");
    (u "https://news.google.com/rss/articles/a9", u "https://www.example.com/a9") ].

Definition requests_get (link0 : pystr) : IO World pystr :=
  fun w =>
    match lookup link0 redirects with
    | Some final => (Ok final, (w + 1)%Z)
    | None => (Raise (Exception (u "ConnectionError")), (w + 1)%Z)
    end.

Definition entry (t l src : string) : Entry :=
  {| title := Some (u t);
     link := Some (u l);
     source := Some {| source_title := Some (u src) |};
     publisher := None;
     author := None |}.

Definition e1 := entry "Council backs riverside park plan"
  "https://news.google.com/rss/articles/a1" "Example Times".
Definition e2 := entry "Museum opens new wing"
  "https://news.google.com/rss/articles/a2" "Example Times".
Definition e3 := entry "Storm closes coastal road"
  "https://news.google.com/rss/articles/a3" "Example Times".
Definition e4 := entry "Chef wins national award"
  "https://news.google.com/rss/articles/a4" "Example Times".
Definition e5 := entry "Court hears zoning appeal"
  "https://news.google.com/rss/articles/a5" "Example Times".
Definition e6 := entry "Festival returns in spring"
  "https://news.google.com/rss/articles/a6" "Example Times".
Definition e7 := entry "Startup moves downtown"
  "https://news.google.com/rss/articles/a7" "Example Times".
Definition e8 := entry "Harbor dredging begins"
  "https://news.google.com/rss/articles/a8" "Example Times".
Definition e9 := entry "Airport adds night flights"
  "https://news.google.com/rss/articles/a9" "Example Times".

(** An entry whose link never leaves the aggregator. *)
Definition stuck := entry "Mayor to speak on budget"
  "https://news.google.com/rss/articles/zz" "Example Times".

(** Eight entries, the first of which resolves to a publisher URL that
    names the aggregator in its query string. *)
Definition feed_utm : list Entry := [e1; e2; e3; e4; e5; e6; e7; e8].

(** Eight entries that all resolve to plain publisher URLs. *)
Definition feed_plain : list Entry := [e2; e3; e4; e5; e6; e7; e8; e9].

(** Three entries: one stuck on the aggregator, then two that resolve. *)
Definition feed_short : list Entry := [stuck; e2; e3].

Definition feeds : list (pystr * list Entry) :=
  [ (u "https://news.google.com/rss/search?q=Paris%20when%3A21d&hl=en-US&gl=US&ceid=US:en",
     feed_plain);
    (u "https://news.google.com/rss/search?q=Lyon%20when%3A21d&hl=en-US&gl=US&ceid=US:en",
     feed_short);
    (u "https://news.google.com/rss/search?q=Nice%20when%3A21d&hl=en-US&gl=US&ceid=US:en",
     feed_utm) ].

(** A feed outside the table parses to no entries. *)
Definition feed_entries (feed_url : pystr) : IO World (list Entry) :=
  fun w =>
    match lookup feed_url feeds with
    | Some feed => (Ok feed, w)
    | None => (Ok [], w)
    end.

(** The packs of a run, when the run returns. *)
Definition packs_of (r : result (list Pack) * World) : list Pack :=
  match fst r with
  | Ok ps => ps
  | Raise _ => []
  end.

Definition long_title : pystr :=
  u "City council approves funding for new downtown library and community center".

End Sample.

(** ** Proof steps *)

Ltac bool_to_prop :=
  repeat rewrite ?orb_true_iff, ?andb_true_iff, ?orb_false_iff, ?andb_false_iff,
    ?N.eqb_eq, ?N.eqb_neq, ?N.leb_le, ?N.leb_gt, ?N.ltb_lt, ?N.ltb_ge in *.

Ltac bytes_below :=
  repeat (apply Forall_cons; [lia|]); apply Forall_nil.

Ltac some_eq :=
  match goal with
  | |- Some ?a = Some ?b -> _ =>
      let E := fresh in
      intros E; assert (a = b) by congruence; subst b; clear E
  end.

Ltac hide_divmod :=
  repeat match goal with
  | H : context [(?a / ?b)%N] |- _ =>
      is_var a; generalize dependent (a / b)%N; intros
  | H : context [(?a mod ?b)%N] |- _ =>
      is_var a; generalize dependent (a mod b)%N; intros
  end.

(** * Properties *)

Unset Implicit Arguments.

(** ** The embedding on small inputs *)

Example u_ascii : u "ab c" = [97; 98; 32; 99]%N.
Proof. reflexivity. Qed.

Example u_emdash : u "a — …" = [97; 32; 8212; 32; 8230]%N.
Proof. reflexivity. Qed.

Example u_emoji : u "🌧️" = [127783; 65039]%N.
Proof. reflexivity. Qed.

Example strip_ex : strip (u "  Paris metro  ") = u "Paris metro".
Proof. reflexivity. Qed.

Example rsplit_ex : rsplit1_head (u "one two three") = u "one two".
Proof. reflexivity. Qed.

Example pick_emoji_metro :
  pick_emoji (Some (u "City Unveils New Metro Line")) = u "🚇".
Proof. vm_compute. reflexivity. Qed.

Example pick_emoji_quake :
  pick_emoji (Some (u "Strong EARTHQUAKE rattles coast")) = u "🌧️".
Proof. vm_compute. reflexivity. Qed.

Example pick_emoji_plain :
  pick_emoji (Some (u "Nothing happened")) = u "📰".
Proof. vm_compute. reflexivity. Qed.

Example strip_city_two_words : strip_city (u "New York City — x") = u "x".
Proof. reflexivity. Qed.

(** One blank before the dash leaves nothing for [\s+] once the class
    has taken its one character: no match, nothing removed. *)
Example strip_city_short_name : strip_city (u "P —  x") = u "P —  x".
Proof. reflexivity. Qed.

Example strip_city_first_dash :
  strip_city (u "Saint-Denis  — floods — again") = u "floods — again".
Proof. reflexivity. Qed.

Example shorten_96 : length (shorten (repeat 97%N 96)) = 93.
Proof. reflexivity. Qed.

(** ** Strings *)

Lemma before_last_space_length (s p : pystr) :
  before_last_space s = Some p -> length p < length s.
Proof.
  revert p; induction s as [|c s IH]; intros p; simpl; [discriminate|].
  destruct (before_last_space s) as [q|] eqn:E.
  - intros [= <-]. simpl. specialize (IH q eq_refl). lia.
  - destruct (cp_eqb c 32%N); [intros [= <-]; simpl; lia | discriminate].
Qed.

Lemma rsplit1_head_length (s : pystr) : length (rsplit1_head s) <= length s.
Proof.
  unfold rsplit1_head.
  destruct (before_last_space s) as [p|] eqn:E; [|lia].
  apply before_last_space_length in E. lia.
Qed.

(** [s.rsplit(" ", 1)[0]] is a prefix of [s], and what follows it, if
    anything, is the last blank and a blank-free rest. *)
Lemma before_last_space_spec (s p : pystr) :
  before_last_space s = Some p ->
  exists rest, s = p ++ 32%N :: rest /\ before_last_space rest = None.
Proof.
  revert p; induction s as [|c s IH]; intros p; simpl; [discriminate|].
  destruct (before_last_space s) as [q|] eqn:E.
  - intros [= <-]. destruct (IH q eq_refl) as (rest & -> & Hr).
    exists rest. split; [reflexivity | exact Hr].
  - destruct (cp_eqb c 32%N) eqn:Ec; [|discriminate].
    intros [= <-]. apply N.eqb_eq in Ec. subst c.
    exists s. split; [reflexivity | exact E].
Qed.

(** ** Clue formatter *)

Lemma shorten_length (t : pystr) : length (shorten t) <= 95.
Proof.
  unfold shorten.
  destruct (95 <? length t) eqn:E.
  - rewrite length_app.
    pose proof (rsplit1_head_length (slice_to 92 t)) as H.
    unfold slice_to in *. rewrite length_firstn in H.
    change (length (u "…")) with 1. lia.
  - apply Nat.ltb_ge in E. exact E.
Qed.

Lemma starter_at_nth (now : Z) :
  nth_error starters (Z.to_nat (now mod 4)) = Some (starter_at now).
Proof.
  unfold starter_at. change (Z.of_nat (length starters)) with 4%Z.
  pose proof (Z.mod_pos_bound now 4 ltac:(lia)) as H.
  apply nth_error_nth'. change (length starters) with 4%nat. lia.
Qed.

Lemma starter_at_in (now : Z) : In (starter_at now) starters.
Proof. eapply nth_error_In, starter_at_nth. Qed.

Lemma starters_length (s : pystr) : In s starters -> length s <= 39.
Proof.
  intros H. repeat (destruct H as [<-|H]; [vm_compute; lia|]). destruct H.
Qed.

Lemma clue_from_title_run (World : Type) (unix_time : World -> Z * World)
    (title0 : pystr) (w : World) :
  clue_from_title unix_time title0 w =
    (Ok (starter_at (fst (unix_time w)) ++ shorten (strip_city title0)),
     snd (unix_time w)).
Proof.
  unfold clue_from_title, bind, lift, ret.
  destruct (unix_time w) as [now w']. reflexivity.
Qed.

(** C1, as the code has it: the clue is a lead-in phrase followed by
    the title text, and it is the title text that is cut to at most 95
    characters (93 when it is cut); with the longest lead-in of 39
    characters the whole clue has at most 134. *)
Theorem clue_title_text_at_most_95 (World : Type)
    (unix_time : World -> Z * World) (title0 : pystr) (w : World) :
  exists lead text w',
    clue_from_title unix_time title0 w = (Ok (lead ++ text), w') /\
    In lead starters /\
    text = shorten (strip_city title0) /\
    length text <= 95 /\
    length (lead ++ text) <= 134.
Proof.
  exists (starter_at (fst (unix_time w))), (shorten (strip_city title0)),
    (snd (unix_time w)).
  pose proof (starter_at_in (fst (unix_time w))) as Hin.
  pose proof (starters_length _ Hin) as Hl.
  pose proof (shorten_length (strip_city title0)) as Ht.
  repeat split; try assumption.
  - apply clue_from_title_run.
  - rewrite length_app. lia.
Qed.

(** C1, as stated, fails: a 75-character headline gives a clue of 111
    characters, more than 96. *)
Lemma clue_longer_than_96 :
  fst (clue_from_title Sample.unix_time Sample.long_title 0%Z) =
    Ok (u "Yesterday, the front page led with: City council approves funding for new downtown library and community center") /\
  ~ length (u "Yesterday, the front page led with: City council approves funding for new downtown library and community center") <= 96.
Proof.
  split; [reflexivity | vm_compute; lia].
Qed.

(** C8: the lead-in of a clue is the starter at index [now mod 4] for
    the clock reading [now] of the call, so two clues made at the same
    clock second begin with the same lead-in phrase. *)
Theorem clue_lead_in_by_clock (World : Type)
    (unix_time : World -> Z * World) (t1 t2 : pystr) (w1 w2 : World) :
  fst (unix_time w1) = fst (unix_time w2) ->
  exists lead,
    nth_error starters (Z.to_nat (fst (unix_time w1) mod 4)) = Some lead /\
    fst (clue_from_title unix_time t1 w1) =
      Ok (lead ++ shorten (strip_city t1)) /\
    fst (clue_from_title unix_time t2 w2) =
      Ok (lead ++ shorten (strip_city t2)).
Proof.
  intros Hsame. exists (starter_at (fst (unix_time w1))).
  split; [apply starter_at_nth|].
  rewrite !clue_from_title_run. simpl. rewrite Hsame. split; reflexivity.
Qed.

Lemma clue_lead_in_by_clock_witness :
  exists lead,
    nth_error starters (Z.to_nat (fst (Sample.unix_time 1730000002%Z) mod 4))
      = Some lead /\
    fst (clue_from_title Sample.unix_time (u "Museum opens new wing")
           1730000002%Z) =
      Ok (lead ++ shorten (strip_city (u "Museum opens new wing"))) /\
    fst (clue_from_title Sample.unix_time (u "Storm closes coastal road")
           1730000002%Z) =
      Ok (lead ++ shorten (strip_city (u "Storm closes coastal road"))).
Proof.
  apply (@clue_lead_in_by_clock Sample.World Sample.unix_time
           (u "Museum opens new wing") (u "Storm closes coastal road")
           1730000002%Z 1730000002%Z).
  reflexivity.
Defined.

(** C9: for the headline "Paris — City Unveils New Metro Line" the
    prefix "Paris — " is removed, and "City Unveils New Metro Line" is
    the text the lead-in phrase is put in front of. *)
Theorem strip_city_paris :
  strip_city (u "Paris — City Unveils New Metro Line") =
    u "City Unveils New Metro Line" /\
  forall (World : Type) (unix_time : World -> Z * World) (w : World),
    fst (clue_from_title unix_time
           (u "Paris — City Unveils New Metro Line") w) =
      Ok (starter_at (fst (unix_time w)) ++ u "City Unveils New Metro Line").
Proof.
  split; [reflexivity|].
  intros World unix_time w. rewrite clue_from_title_run. reflexivity.
Qed.

(** ** Pattern search *)

Lemma literal_ignore_refl (a : cp) : Re.literal_ignore a a = true.
Proof.
  unfold Re.literal_ignore, Re.lowers_to.
  destruct (Re.ascii_lower a); rewrite N.eqb_refl; reflexivity.
Qed.

Lemma match_here_in (rx : Re.pattern) (w s : pystr) :
  In w rx -> Re.match_word w s = true -> Re.match_here rx s = true.
Proof.
  intros Hin Hm. unfold Re.match_here. apply existsb_exists.
  exists w. split; assumption.
Qed.

Lemma match_word_spec (w s : pystr) :
  Re.match_word w s = true <-> exists m post, s = m ++ post /\ ci_equal w m.
Proof.
  revert s; induction w as [|a w IH]; intros s; simpl.
  - split; [|reflexivity]. intros _. exists [], s. split; [reflexivity|constructor].
  - destruct s as [|c s].
    + split; [discriminate|].
      intros (m & post & E & H). inversion H; subst. discriminate.
    + rewrite andb_true_iff, IH. split.
      * intros (Hc & m & post & -> & H).
        exists (c :: m), post. split; [reflexivity|]. constructor; assumption.
      * intros (m & post & E & H). inversion H as [|? c' ? m' Hc Hm]; subst.
        injection E as <- ->. split; [assumption|]. exists m', post. auto.
Qed.

(** What [rx.search(s)] finding a match means: some word of the
    pattern equals, up to letter case, a slice of the subject. *)
Lemma search_spec (rx : Re.pattern) (s : pystr) :
  Re.search rx s = true <->
  exists w pre m post, In w rx /\ s = pre ++ m ++ post /\ ci_equal w m.
Proof.
  split.
  - induction s as [|c s IH]; simpl; intros H;
      apply orb_true_iff in H as [H|H]; try discriminate.
    + apply existsb_exists in H as (w & Hin & Hm).
      apply match_word_spec in Hm as (m & post & E & Hci).
      exists w, [], m, post. auto.
    + apply existsb_exists in H as (w & Hin & Hm).
      apply match_word_spec in Hm as (m & post & E & Hci).
      exists w, [], m, post. auto.
    + destruct (IH H) as (w & pre & m & post & Hin & -> & Hci).
      exists w, (c :: pre), m, post. auto.
  - intros (w & pre & m & post & Hin & -> & Hci).
    induction pre as [|c pre IH].
    + assert (Hm : Re.match_here rx (m ++ post) = true).
      { apply (match_here_in rx w _ Hin). apply match_word_spec. eauto. }
      simpl. destruct (m ++ post); simpl; rewrite Hm; reflexivity.
    + simpl. rewrite IH. apply orb_true_r.
Qed.

(** A pattern that holds the word [w] matches wherever [w] alone does. *)
Lemma search_one_of (rx : Re.pattern) (w s : pystr) :
  In w rx -> Re.search [w] s = true -> Re.search rx s = true.
Proof.
  intros Hin H.
  apply search_spec in H as (w' & pre & m & post & Hw & E & Hci).
  destruct Hw as [<-|[]].
  apply search_spec. exists w, pre, m, post. auto.
Qed.

Lemma startswith_spec (w s : pystr) :
  startswith w s = true -> exists post, s = w ++ post.
Proof.
  revert s; induction w as [|a w IH]; intros s; simpl.
  - intros _. exists s. reflexivity.
  - destruct s as [|c s]; [discriminate|]. intros H.
    apply andb_true_iff in H as [Hc Hw]. apply N.eqb_eq in Hc. subst c.
    destruct (IH s Hw) as (post & ->). exists post. reflexivity.
Qed.

Lemma contains_spec (w s : pystr) :
  contains w s = true -> exists pre post, s = pre ++ w ++ post.
Proof.
  induction s as [|c s IH]; simpl; intros H;
    apply orb_true_iff in H as [H|H]; try discriminate.
  - apply startswith_spec in H as (post & E). exists [], post. exact E.
  - apply startswith_spec in H as (post & E). exists [], post. exact E.
  - destruct (IH H) as (pre & post & ->). exists (c :: pre), post. reflexivity.
Qed.

Lemma ci_equal_refl (w : pystr) : ci_equal w w.
Proof.
  induction w as [|a w IH]; constructor; [apply literal_ignore_refl | exact IH].
Qed.

(** A headline that contains [w] literally is matched by [w] under
    [re.I]. *)
Lemma contains_search (w s : pystr) :
  contains w s = true -> Re.search [w] s = true.
Proof.
  intros H. apply contains_spec in H as (pre & post & ->).
  apply search_spec. exists w, pre, w, post.
  split; [left; reflexivity|]. split; [reflexivity | apply ci_equal_refl].
Qed.

(** ** Emoji heuristic *)

Lemma first_rule_first_match (rules : list (Re.pattern * pystr))
    (subject : pystr) (before : list (Re.pattern * pystr))
    (rx : Re.pattern) (em : pystr) (after : list (Re.pattern * pystr)) :
  rules = before ++ (rx, em) :: after ->
  (forall r, In r before -> Re.search (fst r) subject = false) ->
  Re.search rx subject = true ->
  first_rule rules subject = em.
Proof.
  intros -> Hbefore Hrx. induction before as [|[rx0 em0] before IH]; simpl.
  - rewrite Hrx. reflexivity.
  - pose proof (Hbefore (rx0, em0) (or_introl eq_refl)) as H0.
    simpl in H0. rewrite H0.
    apply IH. intros r Hr. apply Hbefore. right. exact Hr.
Qed.

Lemma first_rule_no_match (rules : list (Re.pattern * pystr))
    (subject : pystr) :
  (forall r, In r rules -> Re.search (fst r) subject = false) ->
  first_rule rules subject = DEFAULT_EMOJI.
Proof.
  induction rules as [|[rx em] rules IH]; simpl; intros H; [reflexivity|].
  pose proof (H (rx, em) (or_introl eq_refl)) as H0.
  simpl in H0. rewrite H0.
  apply IH. intros r Hr. apply H. right. exact Hr.
Qed.

Lemma first_rule_in (rules : list (Re.pattern * pystr)) (subject : pystr) :
  In (first_rule rules subject) (map snd rules ++ [DEFAULT_EMOJI]).
Proof.
  induction rules as [|[rx em] rules IH]; simpl; [left; reflexivity|].
  destruct (Re.search rx subject); [left; reflexivity | right; exact IH].
Qed.

Lemma search_empty_subject (rx : Re.pattern) :
  (forall w, In w rx -> w <> []) -> Re.search rx [] = false.
Proof.
  intros H. simpl. rewrite orb_false_r.
  destruct (Re.match_here rx []) eqn:E; [|reflexivity].
  apply existsb_exists in E as (w & Hin & Hm).
  destruct w as [|a w]; [elim (H [] Hin); reflexivity | discriminate].
Qed.

Lemma earthquake_is_weather (headline0 : pystr) :
  Re.search [u "earthquake"] headline0 = true ->
  Re.search (Re.compile_I "subway|metro|rail|train|airport|flight|transit")
    headline0 = false ->
  pick_emoji (Some headline0) = u "🌧️".
Proof.
  intros Hq Ht. unfold pick_emoji, EMOJI_RULES, or_empty.
  cbn [first_rule]. rewrite Ht.
  rewrite (search_one_of
    (Re.compile_I "storm|snow|rain|flood|heat|wildfire|earthquake|hurricane")
    (u "earthquake") headline0); [reflexivity | | exact Hq].
  vm_compute. tauto.
Qed.

(** C4: [pick_emoji] returns the emoji of the first rule, in the order
    of [EMOJI_RULES], whose pattern matches the headline, where a
    pattern matches when one of its words equals a slice of the
    headline up to letter case; it returns the news emoji when no
    pattern matches; and a headline that contains "earthquake", in
    this or any letter case, and that no transit word matches gets the
    weather emoji. *)
Theorem pick_emoji_first_match (headline0 : pystr) :
  (forall before rx em after,
      EMOJI_RULES = before ++ (rx, em) :: after ->
      (forall r, In r before -> Re.search (fst r) headline0 = false) ->
      Re.search rx headline0 = true ->
      pick_emoji (Some headline0) = em) /\
  ((forall r, In r EMOJI_RULES -> Re.search (fst r) headline0 = false) ->
      pick_emoji (Some headline0) = u "📰") /\
  (forall rx,
      Re.search rx headline0 = true <->
      exists w pre m post,
        In w rx /\ headline0 = pre ++ m ++ post /\ ci_equal w m) /\
  (contains (u "earthquake") headline0 = true ->
   Re.search (Re.compile_I "subway|metro|rail|train|airport|flight|transit")
     headline0 = false ->
   pick_emoji (Some headline0) = u "🌧️") /\
  (Re.search [u "earthquake"] headline0 = true ->
   Re.search (Re.compile_I "subway|metro|rail|train|airport|flight|transit")
     headline0 = false ->
   pick_emoji (Some headline0) = u "🌧️").
Proof.
  split; [|split; [|split; [|split]]].
  - intros before rx em after E Hb Hrx.
    exact (first_rule_first_match EMOJI_RULES headline0 before rx em after
             E Hb Hrx).
  - intros H. exact (first_rule_no_match EMOJI_RULES headline0 H).
  - intros rx. apply search_spec.
  - intros Hc. apply earthquake_is_weather, contains_search, Hc.
  - apply earthquake_is_weather.
Qed.

Lemma pick_emoji_first_match_witness :
  pick_emoji (Some (u "Earthquake damages art museum")) = u "🌧️".
Proof.
  apply (proj2 (proj2 (proj2 (proj2
    (pick_emoji_first_match (u "Earthquake damages art museum")))))).
  - vm_compute. reflexivity.
  - vm_compute. reflexivity.
Defined.

(** C10: [pick_emoji] answers for [None] and for every string; for
    [None] and for the empty string the answer is the news emoji, and
    every answer is one of the eleven emoji of the script. *)
Theorem pick_emoji_total :
  pick_emoji None = u "📰" /\
  pick_emoji (Some []) = u "📰" /\
  (forall title0 : option pystr,
     In (pick_emoji title0)
        [u "🚇"; u "🌧️"; u "🏛️"; u "⚖️"; u "🎶"; u "🎭"; u "🏟️"; u "🍽️";
         u "💻"; u "⚓️"; u "📰"]) /\
  NoDup [u "🚇"; u "🌧️"; u "🏛️"; u "⚖️"; u "🎶"; u "🎭"; u "🏟️"; u "🍽️";
         u "💻"; u "⚓️"; u "📰"].
Proof.
  split; [reflexivity|]. split; [reflexivity|]. split.
  - intros title0. exact (first_rule_in EMOJI_RULES (or_empty title0)).
  - vm_compute. repeat constructor; simpl; intuition discriminate.
Qed.

(** ** URL resolver *)

Lemma resolve_url_run (World : Type) (requests_get : pystr -> IO World pystr)
    (link0 : pystr) (w : World) :
  resolve_url requests_get link0 w =
    (Ok (resolved requests_get link0 w), snd (requests_get link0 w)).
Proof.
  unfold resolve_url, try_except, resolved, ret.
  destruct (requests_get link0 w) as [[final|e] w']; reflexivity.
Qed.

(** C7: [resolve_url] never raises.  It returns the final URL of the
    request when the request returns, and the link it was given when
    the request raises. *)
Theorem resolve_url_fail_open (World : Type)
    (requests_get : pystr -> IO World pystr) (link0 : pystr) (w : World) :
  exists v w',
    resolve_url requests_get link0 w = (Ok v, w') /\
    (forall final, fst (requests_get link0 w) = Ok final -> v = final) /\
    (forall e, fst (requests_get link0 w) = Raise e -> v = link0).
Proof.
  exists (resolved requests_get link0 w), (snd (requests_get link0 w)).
  split; [apply resolve_url_run|]. unfold resolved.
  split; [intros final E | intros e E]; rewrite E; reflexivity.
Qed.

(** ** The per-city loop *)

Lemma bind_ok {W A B : Type} (m : IO W A) (f : A -> IO W B) (w w' : W)
    (a : A) :
  m w = (Ok a, w') -> bind m f w = f a w'.
Proof. intros E. unfold bind. rewrite E. reflexivity. Qed.

Lemma is_empty_false (t : pystr) : t <> [] -> is_empty t = false.
Proof. destruct t; [intros H; elim H; reflexivity | reflexivity]. Qed.

Lemma app_one_neq {A : Type} (l : list A) (x : A) : l ++ [x] <> l.
Proof.
  intros E. apply (f_equal (@length A)) in E.
  rewrite length_app in E. simpl in E. lia.
Qed.

Section Loop.

Variable World : Type.
Variable unix_time : World -> Z * World.
Variable requests_get : pystr -> IO World pystr.

(** The body of the loop, with the request replaced by its outcome. *)
Lemma loop_body_run (e : Entry) (acc : list Story) (w : World) :
  loop_body requests_get e acc w =
    if is_empty (strip (getattr (title e) [])) ||
       is_empty (strip (getattr (link e) []))
    then (Ok (Next acc), w)
    else
      let w' := snd (requests_get (strip (getattr (link e) [])) w) in
      if contains (u "news.google")
           (resolved requests_get (strip (getattr (link e) [])) w)
      then (Ok (Next acc), w')
      else if 4 <=? length (acc ++ [story_of requests_get e w])
           then (Ok (Break (acc ++ [story_of requests_get e w])), w')
           else (Ok (Next (acc ++ [story_of requests_get e w])), w').
Proof.
  unfold loop_body. cbv zeta.
  destruct (is_empty (strip (getattr (title e) [])) ||
            is_empty (strip (getattr (link e) []))); [reflexivity|].
  cbv iota.
  rewrite (bind_ok _ _ _ _ _ (resolve_url_run World requests_get _ w)).
  unfold story_of.
  destruct (contains (u "news.google")
              (resolved requests_get (strip (getattr (link e) [])) w));
    [reflexivity|].
  destruct (4 <=? length _); reflexivity.
Qed.

(** The loop body always returns, and its stories extend the ones it
    was given by at most one. *)
Lemma loop_body_returns (e : Entry) (acc : list Story) (w : World) :
  exists r w', loop_body requests_get e acc w = (Ok r, w').
Proof.
  rewrite loop_body_run.
  destruct (_ || _); [eauto|]. cbv zeta.
  destruct (contains _ _); [eauto|].
  destruct (4 <=? _); eauto.
Qed.

Lemma resolve_loop_returns (entries : list Entry) (acc : list Story)
    (w : World) :
  exists ss w', resolve_loop requests_get entries acc w = (Ok ss, w').
Proof.
  revert acc w. induction entries as [|e entries IH]; intros acc w; simpl.
  - unfold ret. eauto.
  - destruct (loop_body_returns e acc w) as (r & w1 & E).
    rewrite (bind_ok _ _ _ _ _ E). destruct r as [acc'|acc'].
    + apply IH.
    + unfold ret. eauto.
Qed.

Lemma city_stories_returns (feed : list Entry) (w : World) :
  exists ss w', city_stories requests_get feed w = (Ok ss, w').
Proof.
  unfold city_stories.
  destruct (resolve_loop_returns (firstn 8 feed) [] w) as (ss & w' & E).
  rewrite (bind_ok _ _ _ _ _ E). unfold ret. eauto.
Qed.

Lemma make_cards_run (ss : list Story) (w : World) :
  exists cs w',
    make_cards unix_time ss w = (Ok cs, w') /\
    Forall2 (card_of unix_time) cs ss.
Proof.
  revert w. induction ss as [|s ss IH]; intros w; simpl.
  - exists [], w. split; [reflexivity | constructor].
  - unfold make_card.
    pose proof (clue_from_title_run World unix_time (headline s) w) as Ec.
    destruct (IH (snd (unix_time w))) as (cs & w' & E & Hcs).
    eexists _, w'. split.
    + unfold bind at 1. unfold bind at 1. rewrite Ec. unfold ret at 1.
      unfold bind. rewrite E. reflexivity.
    + constructor; [|exact Hcs]. split; [reflexivity|]. simpl.
      exists w. rewrite Ec. reflexivity.
Qed.

End Loop.

(** C3, as the code has it: an entry whose title and link are not
    empty once stripped is skipped by the resolve loop (the stories
    stay as they were, nothing is counted) exactly when its resolved
    URL holds the text "news.google" anywhere; otherwise one story
    with that URL is appended. *)
Theorem skipped_iff_url_mentions_aggregator (World : Type)
    (requests_get : pystr -> IO World pystr) (e : Entry)
    (acc : list Story) (w : World) :
  strip (getattr (title e) []) <> [] ->
  strip (getattr (link e) []) <> [] ->
  (fst (loop_body requests_get e acc w) = Ok (Next acc) <->
   contains (u "news.google")
     (resolved requests_get (strip (getattr (link e) [])) w) = true) /\
  (contains (u "news.google")
     (resolved requests_get (strip (getattr (link e) [])) w) = false ->
   fst (loop_body requests_get e acc w) =
     Ok (Next (acc ++ [story_of requests_get e w])) \/
   fst (loop_body requests_get e acc w) =
     Ok (Break (acc ++ [story_of requests_get e w]))).
Proof.
  intros Ht Hl. rewrite loop_body_run.
  rewrite (is_empty_false _ Ht), (is_empty_false _ Hl). cbv zeta. simpl orb.
  cbv iota.
  destruct (contains (u "news.google")
              (resolved requests_get (strip (getattr (link e) [])) w)).
  - split; [split; reflexivity | discriminate].
  - split.
    + split; [|discriminate].
      destruct (4 <=? length _); simpl; intros [= E];
        elim (app_one_neq _ _ E).
    + intros _. destruct (4 <=? length _); simpl; [right | left]; reflexivity.
Qed.

Lemma skipped_iff_url_mentions_aggregator_witness :
  (fst (loop_body Sample.requests_get Sample.e1 [] 0%Z) = Ok (Next []) <->
   contains (u "news.google")
     (resolved Sample.requests_get
        (strip (getattr (link Sample.e1) [])) 0%Z) = true) /\
  (contains (u "news.google")
     (resolved Sample.requests_get
        (strip (getattr (link Sample.e1) [])) 0%Z) = false ->
   fst (loop_body Sample.requests_get Sample.e1 [] 0%Z) =
     Ok (Next ([] ++ [story_of Sample.requests_get Sample.e1 0%Z])) \/
   fst (loop_body Sample.requests_get Sample.e1 [] 0%Z) =
     Ok (Break ([] ++ [story_of Sample.requests_get Sample.e1 0%Z]))).
Proof.
  apply (skipped_iff_url_mentions_aggregator Sample.World
           Sample.requests_get Sample.e1 [] 0%Z).
  - vm_compute. discriminate.
  - vm_compute. discriminate.
Defined.

(** C3, as stated, fails: the first sample entry resolves to a URL of
    the domain www.example.com, which is not the aggregator's, and is
    skipped all the same, because its query string names
    news.google.com. *)
Lemma skipped_outside_aggregator_domain :
  strip (getattr (title Sample.e1) []) <> [] /\
  strip (getattr (link Sample.e1) []) <> [] /\
  fst (resolve_url Sample.requests_get
         (strip (getattr (link Sample.e1) [])) 0%Z) =
    Ok (u "https://www.example.com/story?utm_source=news.google.com") /\
  spec_domain (u "https://www.example.com/story?utm_source=news.google.com")
    = u "www.example.com" /\
  ~ (fst (loop_body Sample.requests_get Sample.e1 [] 0%Z) = Ok (Next []) <->
     spec_aggregator_domain
       (u "https://www.example.com/story?utm_source=news.google.com") = true).
Proof.
  split; [vm_compute; discriminate|].
  split; [vm_compute; discriminate|].
  split; [reflexivity|]. split; [reflexivity|].
  intros [H _].
  assert (E : fst (loop_body Sample.requests_get Sample.e1 [] 0%Z)
              = Ok (Next [])) by reflexivity.
  specialize (H E). vm_compute in H. discriminate.
Qed.

(** ** Packs *)

Lemma city_pack_run (World : Type) (unix_time : World -> Z * World)
    (requests_get : pystr -> IO World pystr)
    (feed_entries : pystr -> IO World (list Entry))
    (item : CityItem) (w w0 : World) (feed_url : pystr)
    (feed : list Entry) :
  rss_url_default (city item ++ u " when:21d") = Ok feed_url ->
  feed_entries feed_url w = (Ok feed, w0) ->
  exists all cs w1 w',
    city_stories requests_get feed w0 = (Ok all, w1) /\
    city_pack unix_time requests_get feed_entries item w =
      (Ok {| pack_city := city item; cards := cs;
             stories := firstn 4 all |}, w') /\
    Forall2 (card_of unix_time) cs (firstn 4 all).
Proof.
  intros Eurl Efeed. unfold city_pack. cbv zeta.
  unfold bind at 1. unfold from_result. rewrite Eurl.
  rewrite (bind_ok _ _ _ _ _ Efeed).
  destruct (city_stories_returns World requests_get feed w0)
    as (all & w1 & E1).
  destruct (make_cards_run World unix_time (firstn 4 all) w1)
    as (cs & w2 & E2 & Hcs).
  exists all, cs, w1, w2. split; [exact E1|]. split; [|exact Hcs].
  rewrite (bind_ok _ _ _ _ _ E1). rewrite (bind_ok _ _ _ _ _ E2).
  reflexivity.
Qed.

(** A pack that [city_pack] returns has cards made of its stories. *)
Lemma city_pack_cards (World : Type) (unix_time : World -> Z * World)
    (requests_get : pystr -> IO World pystr)
    (feed_entries : pystr -> IO World (list Entry))
    (item : CityItem) (w w' : World) (p : Pack) :
  city_pack unix_time requests_get feed_entries item w = (Ok p, w') ->
  pack_city p = city item /\
  length (cards p) = length (stories p) /\
  length (stories p) <= 4 /\
  Forall2 (card_of unix_time) (cards p) (stories p).
Proof.
  intros Ep.
  destruct (rss_url_default (city item ++ u " when:21d")) as [feed_url|x]
    eqn:Eurl.
  - destruct (feed_entries feed_url w) as [[feed|x] w0] eqn:Efeed.
    + destruct (city_pack_run World unix_time requests_get feed_entries
                  item w w0 feed_url feed Eurl Efeed)
        as (all & cs & w1 & w2 & _ & Ep' & Hcs).
      assert (Hp : p = {| pack_city := city item; cards := cs;
                          stories := firstn 4 all |}) by congruence.
      subst p. cbn [pack_city cards stories].
      split; [reflexivity|]. split; [exact (Forall2_length Hcs)|].
      split; [apply firstn_le_length | exact Hcs].
    + unfold city_pack in Ep. cbv zeta in Ep. unfold bind at 1 in Ep.
      unfold from_result in Ep. rewrite Eurl in Ep.
      unfold bind at 1 in Ep. rewrite Efeed in Ep. discriminate.
  - unfold city_pack in Ep. cbv zeta in Ep. unfold bind at 1 in Ep.
    unfold from_result in Ep. rewrite Eurl in Ep. discriminate.
Qed.

(** The run returns its packs whenever every feed URL can be built and
    every feed can be fetched: nothing else in the loops raises. *)
Lemma main_packs_returns (World : Type) (unix_time : World -> Z * World)
    (requests_get : pystr -> IO World pystr)
    (feed_entries : pystr -> IO World (list Entry))
    (cities : list CityItem) :
  (forall item, In item cities ->
     exists feed_url,
       rss_url_default (city item ++ u " when:21d") = Ok feed_url) ->
  (forall feed_url w, exists feed w0, feed_entries feed_url w = (Ok feed, w0)) ->
  forall w, exists packs w',
    main_packs unix_time requests_get feed_entries cities w = (Ok packs, w').
Proof.
  intros Hurl Hfeed.
  induction cities as [|item cities IH]; intros w; simpl.
  - unfold ret. eauto.
  - destruct (Hurl item (or_introl eq_refl)) as (feed_url & Eurl).
    destruct (Hfeed feed_url w) as (feed & w0 & Efeed).
    destruct (city_pack_run World unix_time requests_get feed_entries
                item w w0 feed_url feed Eurl Efeed)
      as (all & cs & w1 & w2 & _ & Ep & _).
    destruct (IH (fun x Hx => Hurl x (or_intror Hx)) w2) as (ps & w3 & Eps).
    rewrite (bind_ok _ _ _ _ _ Ep). rewrite (bind_ok _ _ _ _ _ Eps).
    unfold ret. eauto.
Qed.

Lemma main_packs_cards (World : Type) (unix_time : World -> Z * World)
    (requests_get : pystr -> IO World pystr)
    (feed_entries : pystr -> IO World (list Entry))
    (cities : list CityItem) (w w' : World) (packs : list Pack) :
  main_packs unix_time requests_get feed_entries cities w = (Ok packs, w') ->
  map pack_city packs = map city cities /\
  Forall (fun p =>
            length (cards p) = length (stories p) /\
            length (stories p) <= 4 /\
            Forall2 (card_of unix_time) (cards p) (stories p))
         packs.
Proof.
  revert w w' packs.
  induction cities as [|item cities IH]; intros w w' packs; simpl.
  - unfold ret. intros [= <- _]. split; [reflexivity | constructor].
  - unfold bind at 1.
    destruct (city_pack unix_time requests_get feed_entries item w)
      as [[p|x] w1] eqn:Ep; [|discriminate].
    unfold bind at 1.
    destruct (main_packs unix_time requests_get feed_entries cities w1)
      as [[ps|x] w2] eqn:Eps; [|discriminate].
    unfold ret. intros [= <- _].
    destruct (city_pack_cards World unix_time requests_get feed_entries
                item w w1 p Ep) as (Hc & Hp).
    destruct (IH w1 w2 ps Eps) as (Hnames & Hall).
    split; [simpl; rewrite Hc, Hnames; reflexivity|].
    constructor; [exact Hp | exact Hall].
Qed.

(** C5: the packs that a run returns are one per city, in order, and
    in every pack the cards and the stories have the same length, at
    most 4, and the card at each index is made of the story at that
    index: its emoji is [pick_emoji] of the headline, its clue
    [clue_from_title] of it.  The run does return its packs whenever
    every feed URL can be built and every feed can be fetched. *)
Theorem packs_cards_match_stories (World : Type)
    (unix_time : World -> Z * World)
    (requests_get : pystr -> IO World pystr)
    (feed_entries : pystr -> IO World (list Entry))
    (cities : list CityItem) (w : World) :
  (forall packs w',
     main_packs unix_time requests_get feed_entries cities w
       = (Ok packs, w') ->
     map pack_city packs = map city cities /\
     Forall (fun p =>
               length (cards p) = length (stories p) /\
               length (stories p) <= 4 /\
               Forall2 (card_of unix_time) (cards p) (stories p))
            packs) /\
  ((forall item, In item cities ->
      exists feed_url,
        rss_url_default (city item ++ u " when:21d") = Ok feed_url) ->
   (forall feed_url w0,
      exists feed w1, feed_entries feed_url w0 = (Ok feed, w1)) ->
   exists packs w',
     main_packs unix_time requests_get feed_entries cities w = (Ok packs, w')).
Proof.
  split.
  - intros packs w'.
    apply (main_packs_cards World unix_time requests_get feed_entries).
  - intros Hurl Hfeed.
    apply (main_packs_returns World unix_time requests_get feed_entries
             cities Hurl Hfeed).
Qed.

(** ** Backfill *)

(** The loop stops at once when four stories are there. *)
Lemma backfill_full (entries : list Entry) (acc : list Story) :
  4 <= length acc -> backfill entries acc = acc.
Proof.
  intros H. unfold backfill.
  replace (4 - length acc) with 0 by lia. reflexivity.
Qed.

(** [backfill] obeys the equation of the [while] loop it stands for. *)
Lemma backfill_while (entries : list Entry) (acc : list Story) :
  backfill entries acc =
    if (length acc <? 4) && (length acc <? length entries) then
      match nth_error entries (length acc) with
      | Some e => backfill entries (acc ++ [rss_story e])
      | None => acc
      end
    else acc.
Proof.
  unfold backfill.
  destruct (length acc <? 4) eqn:E4; simpl andb.
  - apply Nat.ltb_lt in E4.
    destruct (4 - length acc) as [|k] eqn:Ek; [lia|]. cbn [backfill_loop].
    destruct (nth_error entries (length acc)) as [e|] eqn:En.
    + assert (Hlt : length acc < length entries)
        by (apply nth_error_Some; congruence).
      apply Nat.ltb_lt in Hlt. rewrite Hlt.
      rewrite length_app. cbn [length].
      replace (4 - (length acc + 1)) with k by lia. reflexivity.
    + destruct (length acc <? length entries); reflexivity.
  - apply Nat.ltb_ge in E4. replace (4 - length acc) with 0 by lia.
    reflexivity.
Qed.

(** The entries the backfill reads are those at the positions
    [len(stories)], [len(stories) + 1], ... of the feed, whichever
    entries the resolve loop kept before. *)
Lemma backfill_positions (entries : list Entry) (acc : list Story) :
  backfill entries acc =
    acc ++ map rss_story
             (firstn (4 - length acc) (skipn (length acc) entries)).
Proof.
  unfold backfill. generalize (4 - length acc) as k. intros k.
  revert acc. induction k as [|k IH]; intros acc; simpl.
  - rewrite app_nil_r. reflexivity.
  - destruct (nth_error entries (length acc)) as [e|] eqn:En.
    + rewrite IH, length_app. simpl length.
      replace (length acc + 1) with (S (length acc)) by lia.
      rewrite <- app_assoc. simpl app.
      assert (Es : skipn (length acc) entries =
                   e :: skipn (S (length acc)) entries).
      { clear IH. revert entries En.
        induction (length acc) as [|n IHn]; intros [|x xs]; simpl;
          try discriminate.
        - intros [= ->]. reflexivity.
        - intros En. apply (IHn xs En). }
      rewrite Es. reflexivity.
    + apply nth_error_None in En. rewrite (skipn_all2 entries En).
      simpl. rewrite app_nil_r. reflexivity.
Qed.

(** C2, where the code departs from it: of three entries the first
    stays on the aggregator and the next two resolve.  The resolve
    loop keeps the second and third; the backfill then reads position
    2 of the feed, which is the third entry again, and the entry that
    did not resolve is never used. *)
Theorem backfill_repeats_included_entry :
  fst (city_stories Sample.requests_get Sample.feed_short 0%Z) =
    Ok [ {| headline := u "Museum opens new wing";
            story_source := u "Example Times";
            url := u "https://www.example.com/a2" |};
         {| headline := u "Storm closes coastal road";
            story_source := u "Example Times";
            url := u "https://www.example.com/a3" |};
         {| headline := u "Storm closes coastal road";
            story_source := u "Google News";
            url := u "https://news.google.com/rss/articles/a3" |} ].
Proof. vm_compute. reflexivity. Qed.

(** ** The first four of eight *)

Lemma resolve_loop_keeps_order (World : Type)
    (requests_get : pystr -> IO World pystr) (entries : list Entry) :
  (forall e, In e entries ->
     strip (getattr (title e) []) <> [] /\
     strip (getattr (link e) []) <> []) ->
  (forall e w, In e entries ->
     contains (u "news.google")
       (resolved requests_get (strip (getattr (link e) [])) w) = false) ->
  forall (acc : list Story) (w : World),
    length acc < 4 ->
    exists ss w',
      resolve_loop requests_get entries acc w = (Ok (acc ++ ss), w') /\
      Forall2 (fun s e => exists wr, s = story_of requests_get e wr)
        ss (firstn (4 - length acc) entries).
Proof.
  induction entries as [|e entries IH]; intros Hgood Hout acc w Hacc.
  - exists [], w. simpl. rewrite app_nil_r, firstn_nil.
    split; [reflexivity | constructor].
  - destruct (Hgood e (or_introl eq_refl)) as [Ht Hl].
    assert (Eb : loop_body requests_get e acc w =
                 (if 4 <=? length (acc ++ [story_of requests_get e w])
                  then Ok (Break (acc ++ [story_of requests_get e w]))
                  else Ok (Next (acc ++ [story_of requests_get e w])),
                  snd (requests_get (strip (getattr (link e) [])) w))).
    { rewrite loop_body_run.
      rewrite (is_empty_false _ Ht), (is_empty_false _ Hl).
      simpl orb. cbv iota zeta.
      rewrite (Hout e w (or_introl eq_refl)).
      destruct (4 <=? length _); reflexivity. }
    rewrite length_app in Eb. cbn [length] in Eb.
    cbn [resolve_loop].
    destruct (4 - length acc) as [|k] eqn:Ek; [lia|].
    destruct (4 <=? length acc + 1) eqn:E4; rewrite (bind_ok _ _ _ _ _ Eb).
    + apply Nat.leb_le in E4. assert (k = 0) by lia. subst k.
      exists [story_of requests_get e w],
        (snd (requests_get (strip (getattr (link e) [])) w)).
      split; [reflexivity|].
      cbn [firstn]. constructor; [exists w; reflexivity | constructor].
    + apply Nat.leb_gt in E4.
      destruct (IH (fun x Hx => Hgood x (or_intror Hx))
                   (fun x v Hx => Hout x v (or_intror Hx))
                   (acc ++ [story_of requests_get e w])
                   (snd (requests_get (strip (getattr (link e) [])) w)))
        as (ss & w' & E & Hss).
      { rewrite length_app. cbn [length]. lia. }
      exists (story_of requests_get e w :: ss), w'. split.
      * rewrite E, <- app_assoc. reflexivity.
      * cbn [firstn]. constructor; [exists w; reflexivity|].
        rewrite length_app in Hss. cbn [length] in Hss.
        replace (4 - (length acc + 1)) with k in Hss by lia. exact Hss.
Qed.

(** C6, as the code has it: only the first 8 entries of a feed are
    read; and when a feed of 8 entries has titles and links that are
    not empty once stripped and resolved URLs that do not hold the
    text "news.google", the pack has exactly 4 stories, made of the
    first 4 entries in feed order. *)
Theorem first_four_of_eight (World : Type)
    (unix_time : World -> Z * World)
    (requests_get : pystr -> IO World pystr)
    (feed_entries : pystr -> IO World (list Entry))
    (item : CityItem) (w w0 : World) (feed_url : pystr)
    (feed : list Entry) :
  rss_url_default (city item ++ u " when:21d") = Ok feed_url ->
  feed_entries feed_url w = (Ok feed, w0) ->
  length feed = 8 ->
  (forall e, In e feed ->
     strip (getattr (title e) []) <> [] /\
     strip (getattr (link e) []) <> []) ->
  (forall e w1, In e feed ->
     contains (u "news.google")
       (resolved requests_get (strip (getattr (link e) [])) w1) = false) ->
  (forall any w1,
     city_stories requests_get any w1 =
     city_stories requests_get (firstn 8 any) w1) /\
  exists p w',
    city_pack unix_time requests_get feed_entries item w = (Ok p, w') /\
    length (stories p) = 4 /\
    Forall2 (fun s e => exists wr, s = story_of requests_get e wr)
      (stories p) (firstn 4 feed).
Proof.
  intros Eurl Efeed Hlen Hgood Hout. split.
  - intros any w1. unfold city_stories. rewrite firstn_firstn.
    reflexivity.
  - destruct (city_pack_run World unix_time requests_get feed_entries
                item w w0 feed_url feed Eurl Efeed)
      as (all & cs & w1 & w2 & Eall & Ep & _).
    exists {| pack_city := city item; cards := cs; stories := firstn 4 all |}, w2.
    split; [exact Ep|]. cbn [stories].
    unfold city_stories in Eall.
    assert (E8 : firstn 8 feed = feed) by (apply firstn_all2; lia).
    rewrite E8 in Eall.
    destruct (resolve_loop_keeps_order World requests_get feed Hgood Hout []
                w0 ltac:(simpl; lia))
      as (ss & w' & E & Hss).
    cbn [app length] in E, Hss. change (4 - 0) with 4 in Hss.
    rewrite (bind_ok _ _ _ _ _ E) in Eall.
    unfold ret in Eall. injection Eall as <- _.
    pose proof (Forall2_length Hss) as Hl.
    rewrite length_firstn in Hl.
    rewrite (backfill_full feed ss) by lia.
    rewrite (firstn_all2 (n := 4) ss) by lia.
    split; [lia | exact Hss].
Qed.

Lemma first_four_of_eight_witness :
  (forall any w1,
     city_stories Sample.requests_get any w1 =
     city_stories Sample.requests_get (firstn 8 any) w1) /\
  exists p w',
    city_pack Sample.unix_time Sample.requests_get Sample.feed_entries
      {| city := u "Paris" |} 0%Z = (Ok p, w') /\
    length (stories p) = 4 /\
    Forall2 (fun s e => exists wr, s = story_of Sample.requests_get e wr)
      (stories p) (firstn 4 Sample.feed_plain).
Proof.
  apply (first_four_of_eight Sample.World Sample.unix_time
           Sample.requests_get Sample.feed_entries
           {| city := u "Paris" |} 0%Z 0%Z
           (u "https://news.google.com/rss/search?q=Paris%20when%3A21d&hl=en-US&gl=US&ceid=US:en")
           Sample.feed_plain).
  - vm_compute. reflexivity.
  - vm_compute. reflexivity.
  - reflexivity.
  - intros e He. simpl in He.
    repeat (destruct He as [<-|He]; [vm_compute; split; discriminate|]).
    destruct He.
  - intros e w1 He. simpl in He.
    repeat (destruct He as [<-|He]; [vm_compute; reflexivity|]).
    destruct He.
Defined.

(** C6, as stated, fails: the feed of Nice has 8 entries with titles
    and links, and every link resolves to a URL of the domain
    www.example.com; the first URL names news.google.com in its query
    string, so the first entry is skipped and the pack holds entries
    2 to 5 instead of the first four. *)
Lemma first_four_not_kept :
  rss_url_default (u "Nice" ++ u " when:21d") =
    Ok (u "https://news.google.com/rss/search?q=Nice%20when%3A21d&hl=en-US&gl=US&ceid=US:en") /\
  fst (Sample.feed_entries
         (u "https://news.google.com/rss/search?q=Nice%20when%3A21d&hl=en-US&gl=US&ceid=US:en")
         0%Z) = Ok Sample.feed_utm /\
  length Sample.feed_utm = 8 /\
  (forall e, In e Sample.feed_utm ->
     getattr (title e) [] <> [] /\ getattr (link e) [] <> []) /\
  (forall e w1, In e Sample.feed_utm ->
     spec_aggregator_domain
       (resolved Sample.requests_get (strip (getattr (link e) [])) w1)
     = false) /\
  exists p,
    fst (city_pack Sample.unix_time Sample.requests_get Sample.feed_entries
           {| city := u "Nice" |} 0%Z) = Ok p /\
    map headline (stories p) =
      [u "Museum opens new wing"; u "Storm closes coastal road";
       u "Chef wins national award"; u "Court hears zoning appeal"] /\
    map headline (stories p) <>
      map (fun e => strip (getattr (title e) [])) (firstn 4 Sample.feed_utm).
Proof.
  split; [vm_compute; reflexivity|]. split; [vm_compute; reflexivity|].
  split; [reflexivity|]. split; [|split].
  - intros e He. simpl in He.
    repeat (destruct He as [<-|He]; [vm_compute; split; discriminate|]).
    destruct He.
  - intros e w1 He. simpl in He.
    repeat (destruct He as [<-|He]; [vm_compute; reflexivity|]).
    destruct He.
  - eexists. split; [vm_compute; reflexivity|].
    split; [vm_compute; reflexivity | vm_compute; discriminate].
Qed.

(** ** Letter case and shadowed words *)

Lemma literal_ignore_lowercase (lo c : cp) :
  Re.ascii_lower lo = true ->
  Re.literal_ignore lo (ascii_lowercase c) = Re.literal_ignore lo c.
Proof.
  intros Hlo. unfold Re.literal_ignore, Re.lowers_to. rewrite Hlo.
  apply eq_true_iff_eq.
  unfold ascii_lowercase, upper_AZ, Re.ascii_lower in *.
  destruct ((65 <=? c)%N && (c <=? 90)%N) eqn:Eu; bool_to_prop; lia.
Qed.

Lemma match_word_lowercase (w s : pystr) :
  forallb Re.ascii_lower w = true ->
  Re.match_word w (map ascii_lowercase s) = Re.match_word w s.
Proof.
  revert s. induction w as [|a w IH]; intros s Hw; [reflexivity|].
  simpl in Hw. apply andb_true_iff in Hw as [Ha Hw].
  destruct s as [|c s]; [reflexivity|]. simpl.
  rewrite (literal_ignore_lowercase a c Ha), (IH s Hw). reflexivity.
Qed.

Lemma match_here_lowercase (rx : Re.pattern) (s : pystr) :
  lowercase_pattern rx = true ->
  Re.match_here rx (map ascii_lowercase s) = Re.match_here rx s.
Proof.
  unfold lowercase_pattern, Re.match_here.
  induction rx as [|w rx IH]; intros H; [reflexivity|].
  simpl in H. apply andb_true_iff in H as [Hw H]. simpl.
  rewrite (match_word_lowercase w s Hw), (IH H). reflexivity.
Qed.

Lemma search_lowercase (rx : Re.pattern) (s : pystr) :
  lowercase_pattern rx = true ->
  Re.search rx (map ascii_lowercase s) = Re.search rx s.
Proof.
  intros H. induction s as [|c s IH].
  - reflexivity.
  - change (map ascii_lowercase (c :: s))
      with (ascii_lowercase c :: map ascii_lowercase s).
    cbn [Re.search].
    change (ascii_lowercase c :: map ascii_lowercase s)
      with (map ascii_lowercase (c :: s)).
    rewrite (match_here_lowercase rx (c :: s) H), IH. reflexivity.
Qed.

Lemma first_rule_lowercase (rules : list (Re.pattern * pystr)) (s : pystr) :
  forallb (fun r => lowercase_pattern (fst r)) rules = true ->
  first_rule rules (map ascii_lowercase s) = first_rule rules s.
Proof.
  induction rules as [|[rx em] rules IH]; intros H; [reflexivity|].
  simpl in H. apply andb_true_iff in H as [Hrx H]. simpl.
  rewrite (search_lowercase rx s Hrx), (IH H). reflexivity.
Qed.

Lemma pick_emoji_lowercase (headline0 : pystr) :
  pick_emoji (Some (map ascii_lowercase headline0)) =
  pick_emoji (Some headline0).
Proof.
  unfold pick_emoji, or_empty. apply first_rule_lowercase.
  vm_compute. reflexivity.
Qed.

(** Two headlines that differ only in the case of ASCII letters get
    the same emoji. *)
Theorem pick_emoji_ignores_ascii_case (h1 h2 : pystr) :
  map ascii_lowercase h1 = map ascii_lowercase h2 ->
  pick_emoji (Some h1) = pick_emoji (Some h2).
Proof.
  intros E. rewrite <- (pick_emoji_lowercase h1), <- (pick_emoji_lowercase h2).
  rewrite E. reflexivity.
Qed.

Lemma pick_emoji_ignores_ascii_case_witness :
  pick_emoji (Some (u "METRO Strike Ends")) =
  pick_emoji (Some (u "Metro strike ends")).
Proof.
  apply (pick_emoji_ignores_ascii_case (u "METRO Strike Ends")
           (u "Metro strike ends")).
  vm_compute. reflexivity.
Defined.

(** A word matches wherever a longer word that holds it does. *)
Lemma search_inside (a v b h : pystr) :
  Re.search [a ++ v ++ b] h = true -> Re.search [v] h = true.
Proof.
  intros H.
  apply search_spec in H as (w & pre & m & post & Hw & -> & Hci).
  destruct Hw as [<-|[]]. unfold ci_equal in Hci.
  apply Forall2_app_inv_l in Hci as (ma & m' & Ha & Hci & ->).
  apply Forall2_app_inv_l in Hci as (mv & mb & Hv & Hb & ->).
  apply search_spec. exists v, (pre ++ ma), mv, (mb ++ post).
  split; [left; reflexivity|]. split; [|exact Hv].
  rewrite <- !app_assoc. reflexivity.
Qed.

Lemma search_either (w1 w2 h : pystr) :
  Re.search [w1; w2] h = true ->
  Re.search [w1] h = true \/ Re.search [w2] h = true.
Proof.
  intros H.
  apply search_spec in H as (w & pre & m & post & Hw & E & Hci).
  destruct Hw as [Hw|[Hw|[]]]; [left | right];
    apply search_spec; exists w, pre, m, post;
    (split; [left; exact Hw | split; assumption]).
Qed.

(** "theater" and "theatre" hold "heat": a headline with either
    word never reaches the rule of the arts, it gets the emoji of
    transit or of the weather. *)
Theorem theater_counts_as_weather (headline0 : pystr) :
  Re.search [u "theater"; u "theatre"] headline0 = true ->
  pick_emoji (Some headline0) = u "🚇" \/
  pick_emoji (Some headline0) = u "🌧️".
Proof.
  intros H.
  assert (Hheat : Re.search [u "heat"] headline0 = true).
  { apply search_either in H as [H|H].
    - apply (search_inside (u "t") (u "heat") (u "er")). exact H.
    - apply (search_inside (u "t") (u "heat") (u "re")). exact H. }
  unfold pick_emoji, EMOJI_RULES, or_empty. cbn [first_rule].
  destruct (Re.search
              (Re.compile_I "subway|metro|rail|train|airport|flight|transit")
              headline0); [left; reflexivity|]. right.
  rewrite (search_one_of
    (Re.compile_I "storm|snow|rain|flood|heat|wildfire|earthquake|hurricane")
    (u "heat") headline0); [reflexivity | | exact Hheat].
  vm_compute. tauto.
Qed.

Lemma theater_counts_as_weather_witness :
  pick_emoji (Some (u "Broadway Theater reopens")) = u "🚇" \/
  pick_emoji (Some (u "Broadway Theater reopens")) = u "🌧️".
Proof.
  apply (theater_counts_as_weather (u "Broadway Theater reopens")).
  vm_compute. reflexivity.
Defined.

(** "startup" holds "art": a headline with that word gets the emoji
    of the arts or of an earlier rule, never the one of technology. *)
Theorem startup_never_tech (headline0 : pystr) :
  Re.search [u "startup"] headline0 = true ->
  In (pick_emoji (Some headline0))
     [u "🚇"; u "🌧️"; u "🏛️"; u "⚖️"; u "🎶"; u "🎭"] /\
  pick_emoji (Some headline0) <> u "💻".
Proof.
  intros H.
  assert (Hart : Re.search [u "art"] headline0 = true).
  { apply (search_inside (u "st") (u "art") (u "up")). exact H. }
  assert (Hin : In (pick_emoji (Some headline0))
                   [u "🚇"; u "🌧️"; u "🏛️"; u "⚖️"; u "🎶"; u "🎭"]).
  { unfold pick_emoji, EMOJI_RULES, or_empty. cbn [first_rule].
    repeat match goal with
    | |- In (if Re.search (Re.compile_I "art|museum|exhibit|gallery|theater|theatre|broadway|film") _ then _ else _) _ =>
        rewrite (search_one_of
          (Re.compile_I "art|museum|exhibit|gallery|theater|theatre|broadway|film")
          (u "art") headline0); [| vm_compute; tauto | exact Hart]
    | |- In (if Re.search ?rx ?s then _ else _) _ =>
        destruct (Re.search rx s); [simpl; tauto|]
    end.
    simpl; tauto. }
  split; [exact Hin|].
  intros E. rewrite E in Hin. vm_compute in Hin.
  repeat (destruct Hin as [Hin|Hin]; [discriminate|]). exact Hin.
Qed.

Lemma startup_never_tech_witness :
  In (pick_emoji (Some (u "Local startup raises funds")))
     [u "🚇"; u "🌧️"; u "🏛️"; u "⚖️"; u "🎶"; u "🎭"] /\
  pick_emoji (Some (u "Local startup raises funds")) <> u "💻".
Proof.
  apply (startup_never_tech (u "Local startup raises funds")).
  vm_compute. reflexivity.
Defined.

(** ** Shortening *)

Lemma before_last_space_none (s : pystr) :
  before_last_space s = None <-> ~ In 32%N s.
Proof.
  induction s as [|c s IH]; simpl.
  - split; [intros _ [] | reflexivity].
  - destruct (before_last_space s) as [p|] eqn:E.
    + split; [discriminate|]. intros H. exfalso.
      assert (Hs : ~ In 32%N s) by (intros Hin; apply H; right; exact Hin).
      apply IH in Hs. discriminate.
    + destruct (cp_eqb c 32%N) eqn:Ec.
      * split; [discriminate|]. intros H. exfalso. apply H. left.
        apply N.eqb_eq in Ec. exact Ec.
      * split; [|reflexivity]. intros _ [Hc|Hin].
        -- apply N.eqb_neq in Ec. congruence.
        -- apply (proj1 IH eq_refl Hin).
Qed.

(** A title of more than 95 characters is cut to a prefix of at most
    92 characters followed by an ellipsis: the prefix ends before the
    last U+0020 among the first 92 characters, or is all 92 of them
    when they hold none. *)
Theorem shorten_cuts_at_last_blank (t : pystr) :
  95 < length t ->
  exists kept,
    shorten t = kept ++ u "…" /\
    length kept <= 92 /\
    (exists dropped, t = kept ++ dropped) /\
    (In 32%N (firstn 92 t) ->
       exists tail, firstn 92 t = kept ++ 32%N :: tail /\ ~ In 32%N tail) /\
    (~ In 32%N (firstn 92 t) -> kept = firstn 92 t).
Proof.
  intros Hlen. unfold shorten.
  apply Nat.ltb_lt in Hlen. rewrite Hlen. unfold slice_to, rsplit1_head.
  destruct (before_last_space (firstn 92 t)) as [p|] eqn:E.
  - exists p. split; [reflexivity|].
    destruct (before_last_space_spec _ _ E) as (tail & Et & Hn).
    split.
    { apply before_last_space_length in E. rewrite length_firstn in E. lia. }
    split.
    { exists ((32%N :: tail) ++ skipn 92 t).
      transitivity (firstn 92 t ++ skipn 92 t);
        [symmetry; apply firstn_skipn|].
      rewrite Et at 1. rewrite <- app_assoc. reflexivity. }
    split.
    + intros _. exists tail. split; [exact Et|].
      apply before_last_space_none. exact Hn.
    + intros Hno. exfalso. apply Hno. rewrite Et.
      apply in_or_app. right. left. reflexivity.
  - exists (firstn 92 t). split; [reflexivity|].
    split; [rewrite length_firstn; lia|].
    split; [exists (skipn 92 t); symmetry; apply firstn_skipn|].
    split.
    + intros Hin. exfalso. apply before_last_space_none in E. exact (E Hin).
    + reflexivity.
Qed.

Lemma shorten_cuts_at_last_blank_witness :
  exists kept,
    shorten (u "Regional transport authority confirms overnight closures of the northern ring road for resurfacing works") = kept ++ u "…" /\
    length kept <= 92 /\
    (exists dropped, u "Regional transport authority confirms overnight closures of the northern ring road for resurfacing works" = kept ++ dropped) /\
    (In 32%N (firstn 92 (u "Regional transport authority confirms overnight closures of the northern ring road for resurfacing works")) ->
       exists tail, firstn 92 (u "Regional transport authority confirms overnight closures of the northern ring road for resurfacing works") = kept ++ 32%N :: tail /\ ~ In 32%N tail) /\
    (~ In 32%N (firstn 92 (u "Regional transport authority confirms overnight closures of the northern ring road for resurfacing works")) -> kept = firstn 92 (u "Regional transport authority confirms overnight closures of the northern ring road for resurfacing works")).
Proof.
  apply (shorten_cuts_at_last_blank (u "Regional transport authority confirms overnight closures of the northern ring road for resurfacing works")).
  vm_compute. lia.
Defined.

(** ** The city prefix *)

Lemma greedy_star_stop (cls : cp -> bool) (k : pystr -> option pystr)
    (s : pystr) :
  match s with [] => True | c :: _ => cls c = false end ->
  Re.greedy_star cls k s = k s.
Proof.
  destruct s as [|c s]; simpl; [reflexivity|]. intros ->. reflexivity.
Qed.

(** A success further right is kept: the star prefers the longer run. *)
Lemma greedy_star_longer (cls : cp -> bool) (k : pystr -> option pystr)
    (l s r : pystr) :
  forallb cls l = true ->
  Re.greedy_star cls k s = Some r ->
  Re.greedy_star cls k (l ++ s) = Some r.
Proof.
  intros Hl Hs. induction l as [|c l IH]; simpl; [exact Hs|].
  simpl in Hl. apply andb_true_iff in Hl as [Hc Hl].
  rewrite Hc, (IH Hl). reflexivity.
Qed.

Lemma greedy_star_all (cls : cp -> bool) (l s : pystr) :
  forallb cls l = true ->
  match s with [] => True | c :: _ => cls c = false end ->
  Re.greedy_star cls (fun x => Some x) (l ++ s) = Some s.
Proof.
  intros Hl Hs. apply greedy_star_longer; [exact Hl|].
  rewrite greedy_star_stop; [reflexivity | exact Hs].
Qed.

Lemma isspace_letter_space_dash (c : cp) :
  isspace c = true -> letter_space_dash c = true.
Proof.
  intros H. unfold letter_space_dash. rewrite H.
  rewrite orb_true_r. reflexivity.
Qed.

Lemma forallb_isspace_class (l : pystr) :
  forallb isspace l = true -> forallb letter_space_dash l = true.
Proof.
  induction l as [|c l IH]; simpl; [reflexivity|].
  intros H. apply andb_true_iff in H as [Hc Hl].
  rewrite (isspace_letter_space_dash c Hc), (IH Hl). reflexivity.
Qed.

Lemma match_items_one (cls : cp -> bool) (items : list Re.item)
    (c : cp) (s : pystr) :
  Re.match_items (Re.One cls :: items) (c :: s) =
    if cls c then Re.match_items items s else None.
Proof. reflexivity. Qed.

Lemma match_items_plus (cls : cp -> bool) (items : list Re.item)
    (c : cp) (s : pystr) :
  Re.match_items (Re.Plus cls :: items) (c :: s) =
    if cls c then Re.greedy_star cls (Re.match_items items) s else None.
Proof. reflexivity. Qed.

Lemma match_blanks (blanks rest : pystr) :
  blanks <> [] -> forallb isspace blanks = true ->
  match rest with [] => True | c :: _ => isspace c = false end ->
  Re.match_items [Re.Plus isspace] (blanks ++ rest) = Some rest.
Proof.
  intros Hb Hsp Hrest.
  destruct blanks as [|s0 blanks]; [elim Hb; reflexivity|].
  simpl in Hsp. apply andb_true_iff in Hsp as [Hs0 Hsp].
  cbn [app]. rewrite match_items_plus, Hs0.
  apply greedy_star_longer; [exact Hsp|].
  rewrite greedy_star_stop; [reflexivity | exact Hrest].
Qed.

Lemma match_dash_blanks (blanks rest : pystr) :
  blanks <> [] -> forallb isspace blanks = true ->
  match rest with [] => True | c :: _ => isspace c = false end ->
  Re.match_items [Re.One em_dash; Re.Plus isspace]
    (8212%N :: blanks ++ rest) = Some rest.
Proof.
  intros Hb Hsp Hrest. rewrite match_items_one.
  change (em_dash 8212%N) with true. cbv iota.
  apply match_blanks; assumption.
Qed.

Lemma match_blank_dash_blanks (b : cp) (blanks rest : pystr) :
  isspace b = true ->
  blanks <> [] -> forallb isspace blanks = true ->
  match rest with [] => True | c :: _ => isspace c = false end ->
  Re.match_items [Re.Plus isspace; Re.One em_dash; Re.Plus isspace]
    (b :: 8212%N :: blanks ++ rest) = Some rest.
Proof.
  intros Hb Hne Hsp Hrest.
  rewrite match_items_plus, Hb.
  rewrite greedy_star_stop by reflexivity.
  apply match_dash_blanks; assumption.
Qed.

Lemma match_city_prefix (c0 : cp) (name blanks1 blanks2 rest : pystr) :
  upper_AZ c0 = true ->
  name <> [] -> forallb letter_space_dash name = true ->
  blanks1 <> [] -> forallb isspace blanks1 = true ->
  blanks2 <> [] -> forallb isspace blanks2 = true ->
  match rest with [] => True | c :: _ => isspace c = false end ->
  Re.match_items CITY_PREFIX
    (c0 :: name ++ blanks1 ++ 8212%N :: blanks2 ++ rest) = Some rest.
Proof.
  intros Hc0 Hname Hcls Hb1 Hsp1 Hb2 Hsp2 Hrest.
  unfold CITY_PREFIX. rewrite match_items_one, Hc0.
  destruct name as [|n0 name]; [elim Hname; reflexivity|].
  simpl in Hcls. apply andb_true_iff in Hcls as [Hn0 Hcls].
  cbn [app]. rewrite match_items_plus, Hn0.
  destruct (exists_last Hb1) as (blanks1' & b & ->).
  rewrite forallb_app in Hsp1. apply andb_true_iff in Hsp1 as [Hsp1 Hb].
  simpl in Hb. rewrite andb_true_r in Hb.
  replace (name ++ (blanks1' ++ [b]) ++ 8212%N :: blanks2 ++ rest)
    with ((name ++ blanks1') ++ b :: 8212%N :: blanks2 ++ rest)
    by (rewrite <- !app_assoc; reflexivity).
  apply greedy_star_longer.
  { rewrite forallb_app, Hcls. simpl. apply forallb_isspace_class, Hsp1. }
  cbn [Re.greedy_star]. rewrite (isspace_letter_space_dash b Hb).
  change (letter_space_dash 8212%N) with false. cbv iota.
  rewrite (match_items_plus isspace _ 8212%N).
  change (isspace 8212%N) with false. cbv iota.
  apply match_blank_dash_blanks; assumption.
Qed.

Lemma lstrip_nonspace (c : cp) (s : pystr) :
  isspace c = false -> lstrip (c :: s) = c :: s.
Proof. intros H. simpl. rewrite H. reflexivity. Qed.

Lemma rstrip_app (a r : pystr) :
  rstrip r <> [] -> rstrip (a ++ r) = a ++ rstrip r.
Proof.
  intros Hr. induction a as [|c a IH]; [reflexivity|].
  cbn [app rstrip]. rewrite IH.
  destruct (a ++ rstrip r) eqn:E; [|reflexivity].
  apply app_eq_nil in E as [_ E]. contradiction.
Qed.

(** A headline that opens with a capitalised name, blanks, an em dash
    and blanks loses exactly that opening. *)
Theorem strip_city_removes_prefix (c0 : cp)
    (name blanks1 blanks2 rest : pystr) :
  upper_AZ c0 = true ->
  name <> [] -> forallb letter_space_dash name = true ->
  blanks1 <> [] -> forallb isspace blanks1 = true ->
  blanks2 <> [] -> forallb isspace blanks2 = true ->
  rest <> [] -> lstrip rest = rest -> rstrip rest = rest ->
  strip_city (c0 :: name ++ blanks1 ++ 8212%N :: blanks2 ++ rest) = rest.
Proof.
  intros Hc0 Hname Hcls Hb1 Hsp1 Hb2 Hsp2 Hrest Hl Hr.
  assert (Hc0s : isspace c0 = false).
  { unfold upper_AZ in Hc0. unfold isspace.
    apply andb_true_iff in Hc0 as [H1 H2].
    apply N.leb_le in H1. apply N.leb_le in H2.
    repeat match goal with
    | |- context [(?a <=? ?b)%N] => destruct (N.leb_spec a b); try lia
    | |- context [(?a =? ?b)%N] => destruct (N.eqb_spec a b); try lia
    end; reflexivity. }
  assert (Hhead : match rest with [] => True | c :: _ => isspace c = false end).
  { destruct rest as [|r0 rest']; [exact I|].
    simpl in Hl. destruct (isspace r0) eqn:E; [|reflexivity].
    exfalso. clear - Hl.
    assert (Hlen : forall s, length (lstrip s) <= length s).
    { induction s as [|x s IHs]; simpl; [lia|].
      destruct (isspace x); simpl; lia. }
    specialize (Hlen rest'). rewrite Hl in Hlen. simpl in Hlen. lia. }
  unfold strip_city, strip.
  rewrite (lstrip_nonspace c0 _ Hc0s).
  assert (Es : rstrip (c0 :: name ++ blanks1 ++ 8212%N :: blanks2 ++ rest)
               = c0 :: name ++ blanks1 ++ 8212%N :: blanks2 ++ rest).
  { replace (c0 :: name ++ blanks1 ++ 8212%N :: blanks2 ++ rest)
      with ((c0 :: name ++ blanks1 ++ 8212%N :: blanks2) ++ rest)
      by (cbn [app]; rewrite <- !app_assoc; reflexivity).
    rewrite rstrip_app; rewrite Hr; [reflexivity | exact Hrest]. }
  rewrite Es. unfold Re.sub_prefix.
  rewrite (match_city_prefix c0 name blanks1 blanks2 rest); auto.
Qed.

Lemma strip_city_removes_prefix_witness :
  strip_city (78%N :: u "ew York City" ++ u " " ++ 8212%N :: u " " ++
              u "Transit fares rise") = u "Transit fares rise".
Proof.
  apply (strip_city_removes_prefix 78%N (u "ew York City") (u " ") (u " ")
           (u "Transit fares rise"));
    solve [reflexivity | vm_compute; discriminate].
Defined.

(** A match of the city pattern needs an em dash in the subject. *)
Lemma greedy_star_needs (d : cp) (cls : cp -> bool)
    (k : pystr -> option pystr) :
  (forall x r, k x = Some r -> In d x) ->
  forall s r, Re.greedy_star cls k s = Some r -> In d s.
Proof.
  intros Hk. induction s as [|c s IH]; intros r; simpl.
  - apply Hk.
  - destruct (cls c).
    + destruct (Re.greedy_star cls k s) as [r'|] eqn:E.
      * intros _. right. exact (IH r' eq_refl).
      * apply Hk.
    + apply Hk.
Qed.

Lemma match_city_prefix_needs_dash (s r : pystr) :
  Re.match_items CITY_PREFIX s = Some r -> In 8212%N s.
Proof.
  unfold CITY_PREFIX. destruct s as [|c0 s]; [discriminate|].
  rewrite match_items_one. destruct (upper_AZ c0); [|discriminate].
  destruct s as [|c1 s]; [discriminate|].
  rewrite match_items_plus. destruct (letter_space_dash c1); [|discriminate].
  intros H. right. right. revert H.
  apply greedy_star_needs. clear. intros x r.
  destruct x as [|b x]; [discriminate|].
  rewrite match_items_plus. destruct (isspace b); [|discriminate].
  intros H. right. revert H.
  apply greedy_star_needs. clear. intros y r.
  destruct y as [|e y]; [discriminate|].
  rewrite match_items_one. destruct (em_dash e) eqn:Ee; [|discriminate].
  intros _. left. apply N.eqb_eq in Ee. exact Ee.
Qed.

Lemma in_lstrip (x : cp) (s : pystr) : In x (lstrip s) -> In x s.
Proof.
  induction s as [|c s IH]; simpl; [tauto|].
  destruct (isspace c); [intros H; right; exact (IH H) | tauto].
Qed.

Lemma in_rstrip (x : cp) (s : pystr) : In x (rstrip s) -> In x s.
Proof.
  induction s as [|c s IH]; simpl; [tauto|].
  destruct (rstrip s) as [|r0 r].
  - destruct (isspace c); simpl; tauto.
  - intros [H|H]; [left; exact H | right; exact (IH H)].
Qed.

(** Without an em dash in the title nothing is taken for a city name. *)
Theorem strip_city_needs_dash (title0 : pystr) :
  ~ In 8212%N title0 -> strip_city title0 = strip title0.
Proof.
  intros Hno. unfold strip_city, Re.sub_prefix.
  destruct (Re.match_items CITY_PREFIX (strip title0)) as [r|] eqn:E;
    [|reflexivity].
  exfalso. apply Hno. apply match_city_prefix_needs_dash in E.
  unfold strip in E. apply in_lstrip, in_rstrip. exact E.
Qed.

Lemma strip_city_needs_dash_witness :
  strip_city (u "  Berlin - Senate approves budget ") =
  strip (u "  Berlin - Senate approves budget ").
Proof.
  apply (strip_city_needs_dash (u "  Berlin - Senate approves budget ")).
  vm_compute. intuition discriminate.
Defined.

(** ** How many stories *)

Lemma loop_body_cases (World : Type)
    (requests_get : pystr -> IO World pystr)
    (e : Entry) (acc : list Story) (w : World) :
  exists w',
    loop_body requests_get e acc w = (Ok (Next acc), w') \/
    (strip (getattr (title e) []) <> [] /\
     strip (getattr (link e) []) <> [] /\
     contains (u "news.google") (url (story_of requests_get e w)) = false /\
     ((length acc + 1 < 4 /\
       loop_body requests_get e acc w =
         (Ok (Next (acc ++ [story_of requests_get e w])), w')) \/
      (4 <= length acc + 1 /\
       loop_body requests_get e acc w =
         (Ok (Break (acc ++ [story_of requests_get e w])), w')))).
Proof.
  rewrite loop_body_run.
  destruct (strip (getattr (title e) [])) as [|t0 t] eqn:Et.
  { exists w. left. reflexivity. }
  destruct (strip (getattr (link e) [])) as [|l0 l] eqn:El.
  { exists w. left. reflexivity. }
  cbn [is_empty orb]. cbv zeta iota.
  exists (snd (requests_get (l0 :: l) w)).
  destruct (contains (u "news.google") (resolved requests_get (l0 :: l) w))
    eqn:Ec; [left; reflexivity|].
  right. split; [discriminate|]. split; [discriminate|].
  split.
  { unfold story_of. cbn [url]. rewrite El. exact Ec. }
  rewrite length_app. cbn [length].
  destruct (4 <=? length acc + 1) eqn:E4.
  - right. apply Nat.leb_le in E4. split; [exact E4 | reflexivity].
  - left. apply Nat.leb_gt in E4. split; [exact E4 | reflexivity].
Qed.

Lemma resolve_loop_length (World : Type)
    (requests_get : pystr -> IO World pystr) (entries : list Entry) :
  forall (acc ss : list Story) (w w' : World),
    resolve_loop requests_get entries acc w = (Ok ss, w') ->
    length acc < 4 ->
    length ss <= 4 /\ length ss <= length acc + length entries.
Proof.
  induction entries as [|e entries IH]; intros acc ss w w' E Hacc.
  - simpl in E. unfold ret in E. injection E as <- _. simpl. lia.
  - cbn [resolve_loop] in E.
    destruct (loop_body_cases World requests_get e acc w)
      as (w1 & [Eb | (_ & _ & _ & [[Hlt Eb] | [Hge Eb]])]);
      rewrite (bind_ok _ _ _ _ _ Eb) in E.
    + destruct (IH acc ss w1 w' E Hacc). simpl. lia.
    + destruct (IH _ ss w1 w' E) as [H1 H2].
      { rewrite length_app. simpl. lia. }
      rewrite length_app in H2. simpl in *. lia.
    + unfold ret in E. injection E as <- _.
      rewrite length_app. simpl. lia.
Qed.

Lemma backfill_length (entries : list Entry) (acc : list Story) :
  length acc <= 4 -> length acc <= length entries ->
  length (backfill entries acc) = Nat.min 4 (length entries).
Proof.
  intros H4 Hn. rewrite backfill_positions.
  rewrite length_app, length_map, length_firstn, length_skipn. lia.
Qed.

Lemma city_stories_length (World : Type)
    (requests_get : pystr -> IO World pystr) (feed : list Entry)
    (w w' : World) (all : list Story) :
  city_stories requests_get feed w = (Ok all, w') ->
  length all = Nat.min 4 (length feed).
Proof.
  unfold city_stories. intros E.
  destruct (resolve_loop_returns World requests_get (firstn 8 feed) [] w)
    as (ss & w1 & Es).
  rewrite (bind_ok _ _ _ _ _ Es) in E. unfold ret in E.
  assert (Hall : all = backfill (firstn 8 feed) ss) by congruence.
  subst all. clear E.
  destruct (resolve_loop_length World requests_get _ _ _ _ _ Es) as [H1 H2].
  { simpl. lia. }
  change (length (@nil Story)) with 0 in H2.
  rewrite backfill_length by lia.
  rewrite length_firstn. lia.
Qed.

(** A pack holds exactly min(4, number of feed entries) stories and as
    many cards, whatever resolved and whatever did not. *)
Theorem pack_story_count (World : Type)
    (unix_time : World -> Z * World)
    (requests_get : pystr -> IO World pystr)
    (feed_entries : pystr -> IO World (list Entry))
    (item : CityItem) (w w0 : World) (feed_url : pystr)
    (feed : list Entry) :
  rss_url_default (city item ++ u " when:21d") = Ok feed_url ->
  feed_entries feed_url w = (Ok feed, w0) ->
  exists p w',
    city_pack unix_time requests_get feed_entries item w = (Ok p, w') /\
    length (stories p) = Nat.min 4 (length feed) /\
    length (cards p) = Nat.min 4 (length feed).
Proof.
  intros Eurl Efeed.
  destruct (city_pack_run World unix_time requests_get feed_entries
              item w w0 feed_url feed Eurl Efeed)
    as (all & cs & w1 & w2 & Eall & Ep & Hcs).
  eexists _, w2. split; [exact Ep|]. cbn [stories cards].
  pose proof (city_stories_length World requests_get feed w0 w1 all Eall)
    as Hall.
  pose proof (Forall2_length Hcs) as Hc.
  rewrite length_firstn in *. lia.
Qed.

Lemma pack_story_count_witness :
  exists p w',
    city_pack Sample.unix_time Sample.requests_get Sample.feed_entries
      {| city := u "Lyon" |} 0%Z = (Ok p, w') /\
    length (stories p) = Nat.min 4 (length Sample.feed_short) /\
    length (cards p) = Nat.min 4 (length Sample.feed_short).
Proof.
  apply (pack_story_count Sample.World Sample.unix_time Sample.requests_get
           Sample.feed_entries {| city := u "Lyon" |} 0%Z 0%Z
           (u "https://news.google.com/rss/search?q=Lyon%20when%3A21d&hl=en-US&gl=US&ceid=US:en")
           Sample.feed_short).
  - vm_compute. reflexivity.
  - vm_compute. reflexivity.
Defined.

(** ** The feed URL *)

Lemma utf8_encode_cp_some (c : cp) :
  (c < 1114112)%N -> surrogate c = false ->
  exists bs, utf8_encode_cp c = Some bs.
Proof.
  intros Hc Hs. unfold utf8_encode_cp. fold (surrogate c). rewrite Hs.
  apply N.ltb_lt in Hc. rewrite Hc.
  destruct (c <? 128)%N; [eauto|]. destruct (c <? 2048)%N; [eauto|].
  destruct (c <? 65536)%N; eauto.
Qed.

Lemma utf8_encode_cp_none (c : cp) :
  surrogate c = true -> utf8_encode_cp c = None.
Proof.
  intros Hs. unfold utf8_encode_cp. fold (surrogate c). rewrite Hs.
  unfold surrogate in Hs.
  destruct (c <? 128)%N eqn:E1; [bool_to_prop; lia|].
  destruct (c <? 2048)%N eqn:E2; [bool_to_prop; lia|]. reflexivity.
Qed.

Lemma utf8_encode_none (s : pystr) (c : cp) :
  In c s -> surrogate c = true -> utf8_encode s = None.
Proof.
  intros Hin Hs. induction s as [|x s IH]; [destruct Hin|].
  cbn [utf8_encode]. destruct Hin as [->|Hin].
  - rewrite (utf8_encode_cp_none c Hs). reflexivity.
  - rewrite (IH Hin). destruct (utf8_encode_cp x); reflexivity.
Qed.

Lemma utf8_encode_some (s : pystr) :
  (forall c, In c s -> (c < 1114112)%N) ->
  (forall c, In c s -> surrogate c = false) ->
  exists bs, utf8_encode s = Some bs.
Proof.
  induction s as [|x s IH]; intros Hr Hs; cbn [utf8_encode]; [eauto|].
  destruct (utf8_encode_cp_some x (Hr x (or_introl eq_refl))
              (Hs x (or_introl eq_refl))) as (bs & ->).
  destruct (IH (fun c H => Hr c (or_intror H)) (fun c H => Hs c (or_intror H)))
    as (rest & ->).
  eauto.
Qed.

Lemma rss_url_ok (query hl gl ceid : pystr) (bs : list N) :
  utf8_encode query = Some bs ->
  rss_url query hl gl ceid =
    Ok (u "https://news.google.com/rss/search?q=" ++ flat_map quote_byte bs ++
        u "&hl=" ++ hl ++ u "&gl=" ++ gl ++ u "&ceid=" ++ ceid).
Proof. intros E. unfold rss_url, quote. rewrite E. reflexivity. Qed.

Lemma rss_url_raise (query hl gl ceid : pystr) :
  utf8_encode query = None ->
  rss_url query hl gl ceid = Raise (Exception (u "UnicodeEncodeError")).
Proof. intros E. unfold rss_url, quote. rewrite E. reflexivity. Qed.

Lemma rss_url_inv (query hl gl ceid url0 : pystr) :
  rss_url query hl gl ceid = Ok url0 ->
  exists bs,
    utf8_encode query = Some bs /\
    url0 = u "https://news.google.com/rss/search?q=" ++
           flat_map quote_byte bs ++
           u "&hl=" ++ hl ++ u "&gl=" ++ gl ++ u "&ceid=" ++ ceid.
Proof.
  destruct (utf8_encode query) as [bs|] eqn:E.
  - rewrite (rss_url_ok query hl gl ceid bs E). intros [= <-]. eauto.
  - rewrite (rss_url_raise query hl gl ceid E). discriminate.
Qed.

(** [rss_url] raises [UnicodeEncodeError] exactly on a query that
    holds a surrogate (U+D800 to U+DFFF), and returns a URL for every
    other string. *)
Theorem rss_url_raises_on_surrogates (query hl gl ceid : pystr) :
  (forall c, In c query -> (c < 1114112)%N) ->
  (rss_url query hl gl ceid = Raise (Exception (u "UnicodeEncodeError")) <->
   exists c, In c query /\ (55296 <= c <= 57343)%N) /\
  ((exists url0, rss_url query hl gl ceid = Ok url0) <->
   forall c, In c query -> ~ (55296 <= c <= 57343)%N).
Proof.
  intros Hr.
  assert (Hsur : forall c, surrogate c = true <-> (55296 <= c <= 57343)%N).
  { intros c. unfold surrogate. bool_to_prop. reflexivity. }
  destruct (existsb surrogate query) eqn:Ex.
  - apply existsb_exists in Ex as (c & Hin & Hs).
    pose proof (utf8_encode_none query c Hin Hs) as En.
    rewrite (rss_url_raise query hl gl ceid En). split.
    + split; [|reflexivity]. intros _. exists c. split; [exact Hin|].
      apply Hsur, Hs.
    + split; [intros (url0 & E); discriminate|].
      intros H. elim (H c Hin). apply Hsur, Hs.
  - assert (Hno : forall c, In c query -> surrogate c = false).
    { intros c Hin. destruct (surrogate c) eqn:Es; [|reflexivity].
      assert (existsb surrogate query = true)
        by (apply existsb_exists; eauto).
      congruence. }
    destruct (utf8_encode_some query Hr Hno) as (bs & E).
    rewrite (rss_url_ok query hl gl ceid bs E). split.
    + split; [discriminate|]. intros (c & Hin & Hc).
      apply Hsur in Hc. rewrite (Hno c Hin) in Hc. discriminate.
    + split; [|eauto]. intros _ c Hin Hc.
      apply Hsur in Hc. rewrite (Hno c Hin) in Hc. discriminate.
Qed.

Lemma rss_url_raises_on_surrogates_witness :
  (rss_url (u "Paris " ++ [55357%N]) (u "en-US") (u "US") (u "US:en") =
     Raise (Exception (u "UnicodeEncodeError")) <->
   exists c, In c (u "Paris " ++ [55357%N]) /\ (55296 <= c <= 57343)%N) /\
  ((exists url0,
      rss_url (u "Paris " ++ [55357%N]) (u "en-US") (u "US") (u "US:en") =
        Ok url0) <->
   forall c, In c (u "Paris " ++ [55357%N]) -> ~ (55296 <= c <= 57343)%N).
Proof.
  apply (rss_url_raises_on_surrogates (u "Paris " ++ [55357%N])
           (u "en-US") (u "US") (u "US:en")).
  intros c Hc. vm_compute in Hc.
  repeat (destruct Hc as [<-|Hc]; [reflexivity|]). destruct Hc.
Defined.

(** *** Bytes of the encoding *)

Lemma utf8_encode_cp_bytes (c : cp) (bs : list N) :
  utf8_encode_cp c = Some bs -> Forall (fun b => (b < 256)%N) bs.
Proof.
  unfold utf8_encode_cp.
  destruct (c <? 128)%N eqn:E1.
  { some_eq. bool_to_prop. bytes_below. }
  destruct (c <? 2048)%N eqn:E2.
  { some_eq. bool_to_prop.
    pose proof (N.mod_upper_bound c 64 ltac:(lia)).
    assert (c / 64 < 32)%N by (apply N.Div0.div_lt_upper_bound; lia).
    bytes_below. }
  destruct ((55296 <=? c)%N && (c <=? 57343)%N); [discriminate|].
  destruct (c <? 65536)%N eqn:E3.
  { some_eq. bool_to_prop.
    pose proof (N.mod_upper_bound c 64 ltac:(lia)).
    pose proof (N.mod_upper_bound (c / 64) 64 ltac:(lia)).
    assert (c / 4096 < 16)%N by (apply N.Div0.div_lt_upper_bound; lia).
    bytes_below. }
  destruct (c <? 1114112)%N eqn:E4; [|discriminate].
  some_eq. bool_to_prop.
  pose proof (N.mod_upper_bound c 64 ltac:(lia)).
  pose proof (N.mod_upper_bound (c / 64) 64 ltac:(lia)).
  pose proof (N.mod_upper_bound (c / 4096) 64 ltac:(lia)).
  assert (c / 262144 < 5)%N by (apply N.Div0.div_lt_upper_bound; lia).
  bytes_below.
Qed.

Lemma utf8_encode_bytes (s : pystr) (bs : list N) :
  utf8_encode s = Some bs -> Forall (fun b => (b < 256)%N) bs.
Proof.
  revert bs. induction s as [|c s IH]; intros bs; cbn [utf8_encode].
  - intros [= <-]. constructor.
  - destruct (utf8_encode_cp c) as [b1|] eqn:E1; [|discriminate].
    destruct (utf8_encode s) as [b2|]; [|discriminate].
    intros [= <-]. apply Forall_app. split.
    + exact (utf8_encode_cp_bytes c b1 E1).
    + exact (IH b2 eq_refl).
Qed.

(** Decoding the bytes of an encoded string gives the string back. *)
Lemma utf8_decode_encode_cp (c : cp) (bs rest : list N) :
  utf8_encode_cp c = Some bs ->
  utf8_decode 0 0%N (bs ++ rest) = c :: utf8_decode 0 0%N rest.
Proof.
  unfold utf8_encode_cp.
  destruct (c <? 128)%N eqn:E1.
  { some_eq. cbn [app utf8_decode]. rewrite E1. reflexivity. }
  destruct (c <? 2048)%N eqn:E2.
  { some_eq. bool_to_prop.
    pose proof (N.mod_upper_bound c 64 ltac:(lia)).
    assert (c / 64 < 32)%N by (apply N.Div0.div_lt_upper_bound; lia).
    pose proof (N.div_mod c 64 ltac:(lia)).
    cbn [app utf8_decode].
    replace (192 + c / 64 <? 128)%N with false
      by (symmetry; apply N.ltb_ge; lia).
    replace (192 + c / 64 <? 224)%N with true
      by (symmetry; apply N.ltb_lt; lia).
    f_equal. unfold cp in *. hide_divmod. lia. }
  destruct ((55296 <=? c)%N && (c <=? 57343)%N); [discriminate|].
  destruct (c <? 65536)%N eqn:E3.
  { some_eq. bool_to_prop.
    pose proof (N.mod_upper_bound c 64 ltac:(lia)).
    pose proof (N.mod_upper_bound (c / 64) 64 ltac:(lia)).
    assert (c / 4096 < 16)%N by (apply N.Div0.div_lt_upper_bound; lia).
    pose proof (N.div_mod c 64 ltac:(lia)).
    pose proof (N.div_mod (c / 64) 64 ltac:(lia)) as H64.
    rewrite N.Div0.div_div in H64. change (64 * 64)%N with 4096%N in H64.
    cbn [app utf8_decode].
    replace (224 + c / 4096 <? 128)%N with false
      by (symmetry; apply N.ltb_ge; lia).
    replace (224 + c / 4096 <? 224)%N with false
      by (symmetry; apply N.ltb_ge; lia).
    replace (224 + c / 4096 <? 240)%N with true
      by (symmetry; apply N.ltb_lt; lia).
    f_equal. unfold cp in *. hide_divmod. lia. }
  destruct (c <? 1114112)%N eqn:E4; [|discriminate].
  some_eq. bool_to_prop.
  pose proof (N.mod_upper_bound c 64 ltac:(lia)).
  pose proof (N.mod_upper_bound (c / 64) 64 ltac:(lia)).
  pose proof (N.mod_upper_bound (c / 4096) 64 ltac:(lia)).
  assert (c / 262144 < 5)%N by (apply N.Div0.div_lt_upper_bound; lia).
  pose proof (N.div_mod c 64 ltac:(lia)).
  pose proof (N.div_mod (c / 64) 64 ltac:(lia)) as H64.
  rewrite N.Div0.div_div in H64. change (64 * 64)%N with 4096%N in H64.
  pose proof (N.div_mod (c / 4096) 64 ltac:(lia)) as H4096.
  rewrite N.Div0.div_div in H4096.
  change (4096 * 64)%N with 262144%N in H4096.
  cbn [app utf8_decode].
  replace (240 + c / 262144 <? 128)%N with false
    by (symmetry; apply N.ltb_ge; lia).
  replace (240 + c / 262144 <? 224)%N with false
    by (symmetry; apply N.ltb_ge; lia).
  replace (240 + c / 262144 <? 240)%N with false
    by (symmetry; apply N.ltb_ge; lia).
  f_equal. unfold cp in *. hide_divmod. lia.
Qed.

Lemma utf8_decode_encode (s : pystr) (bs : list N) :
  utf8_encode s = Some bs -> utf8_decode 0 0%N bs = s.
Proof.
  revert bs. induction s as [|c s IH]; intros bs; cbn [utf8_encode].
  - intros [= <-]. reflexivity.
  - destruct (utf8_encode_cp c) as [b1|] eqn:E1; [|discriminate].
    destruct (utf8_encode s) as [b2|]; [|discriminate].
    intros [= <-]. rewrite (utf8_decode_encode_cp c b1 b2 E1).
    rewrite (IH b2 eq_refl). reflexivity.
Qed.

(** *** Percent-encoding *)

Lemma hex_digit_safe (d : N) : (d < 16)%N -> always_safe (hex_digit d) = true.
Proof.
  intros H. unfold always_safe, hex_digit.
  destruct (d <? 10)%N eqn:E; bool_to_prop; lia.
Qed.

Lemma hex_digit_inj (d1 d2 : N) :
  (d1 < 16)%N -> (d2 < 16)%N -> hex_digit d1 = hex_digit d2 -> d1 = d2.
Proof.
  unfold hex_digit. intros H1 H2.
  destruct (d1 <? 10)%N eqn:E1; destruct (d2 <? 10)%N eqn:E2;
    bool_to_prop; lia.
Qed.

Lemma quote_byte_chars (b : N) :
  (b < 256)%N ->
  Forall (fun c => url_safe c = true \/ c = 37%N) (quote_byte b).
Proof.
  intros Hb. unfold quote_byte. fold (url_safe b).
  destruct (url_safe b) eqn:E.
  - apply Forall_cons; [left; exact E | apply Forall_nil].
  - assert (b / 16 < 16)%N by (apply N.Div0.div_lt_upper_bound; lia).
    pose proof (N.mod_upper_bound b 16 ltac:(lia)).
    unfold url_safe.
    apply Forall_cons; [right; reflexivity|].
    apply Forall_cons;
      [left; rewrite hex_digit_safe by assumption; reflexivity|].
    apply Forall_cons;
      [left; rewrite hex_digit_safe by assumption; reflexivity|].
    apply Forall_nil.
Qed.

Lemma quote_byte_inj (b1 b2 : N) (r1 r2 : pystr) :
  (b1 < 256)%N -> (b2 < 256)%N ->
  quote_byte b1 ++ r1 = quote_byte b2 ++ r2 -> b1 = b2 /\ r1 = r2.
Proof.
  intros H1 H2. unfold quote_byte. fold (url_safe b1) (url_safe b2).
  assert (Hd1 : (b1 / 16 < 16)%N) by (apply N.Div0.div_lt_upper_bound; lia).
  assert (Hd2 : (b2 / 16 < 16)%N) by (apply N.Div0.div_lt_upper_bound; lia).
  pose proof (N.mod_upper_bound b1 16 ltac:(lia)) as Hm1.
  pose proof (N.mod_upper_bound b2 16 ltac:(lia)) as Hm2.
  destruct (url_safe b1) eqn:E1; destruct (url_safe b2) eqn:E2;
    cbn [app]; intros E.
  - injection E as -> ->. split; reflexivity.
  - injection E as -> _. discriminate E1.
  - injection E as <- _. discriminate E2.
  - injection E as Ea Eb ->.
    apply hex_digit_inj in Ea; [|assumption..].
    apply hex_digit_inj in Eb; [|assumption..].
    split; [|reflexivity].
    rewrite (N.div_mod b1 16 ltac:(lia)), (N.div_mod b2 16 ltac:(lia)).
    rewrite Ea, Eb. reflexivity.
Qed.

Lemma quote_bytes_inj (bs1 bs2 : list N) :
  Forall (fun b => (b < 256)%N) bs1 -> Forall (fun b => (b < 256)%N) bs2 ->
  flat_map quote_byte bs1 = flat_map quote_byte bs2 -> bs1 = bs2.
Proof.
  intros H1. revert bs2.
  induction H1 as [|b1 bs1 Hb1 _ IH]; intros bs2 H2 E.
  - destruct bs2 as [|b2 bs2]; [reflexivity|].
    cbn [flat_map] in E. unfold quote_byte in E.
    destruct (always_safe b2 || (b2 =? 47)%N); discriminate.
  - destruct H2 as [|b2 bs2 Hb2 H2].
    + cbn [flat_map] in E. unfold quote_byte in E.
      destruct (always_safe b1 || (b1 =? 47)%N); discriminate.
    + cbn [flat_map] in E.
      apply quote_byte_inj in E as [-> E]; [|assumption..].
      rewrite (IH bs2 H2 E). reflexivity.
Qed.

(** Two queries that differ never share a feed URL. *)
Theorem rss_url_distinct (q1 q2 hl gl ceid url1 url2 : pystr) :
  q1 <> q2 ->
  rss_url q1 hl gl ceid = Ok url1 ->
  rss_url q2 hl gl ceid = Ok url2 ->
  url1 <> url2.
Proof.
  intros Hq E1 E2 Eu. apply Hq.
  apply rss_url_inv in E1 as (bs1 & Eb1 & ->).
  apply rss_url_inv in E2 as (bs2 & Eb2 & Eu2). rewrite Eu2 in Eu. clear Eu2.
  apply app_inv_head in Eu.
  rewrite !app_assoc in Eu. repeat apply app_inv_tail in Eu.
  apply quote_bytes_inj in Eu;
    [| exact (utf8_encode_bytes q1 bs1 Eb1)
     | exact (utf8_encode_bytes q2 bs2 Eb2)].
  subst bs2.
  rewrite <- (utf8_decode_encode q1 bs1 Eb1).
  rewrite <- (utf8_decode_encode q2 bs1 Eb2). reflexivity.
Qed.

Lemma rss_url_distinct_witness :
  rss_url_default (u "Nice when:21d") =
    Ok (u "https://news.google.com/rss/search?q=Nice%20when%3A21d&hl=en-US&gl=US&ceid=US:en") /\
  rss_url_default (u "Nice%20when:21d") =
    Ok (u "https://news.google.com/rss/search?q=Nice%2520when%3A21d&hl=en-US&gl=US&ceid=US:en") /\
  u "https://news.google.com/rss/search?q=Nice%20when%3A21d&hl=en-US&gl=US&ceid=US:en"
  <> u "https://news.google.com/rss/search?q=Nice%2520when%3A21d&hl=en-US&gl=US&ceid=US:en".
Proof.
  split; [vm_compute; reflexivity|]. split; [vm_compute; reflexivity|].
  apply (rss_url_distinct (u "Nice when:21d") (u "Nice%20when:21d")
           (u "en-US") (u "US") (u "US:en")).
  - vm_compute. discriminate.
  - vm_compute. reflexivity.
  - vm_compute. reflexivity.
Defined.

(** The default feed URL is made of printable ASCII characters only,
    none of them a blank. *)
Theorem rss_url_printable (query url0 : pystr) :
  rss_url_default query = Ok url0 ->
  Forall (fun c => (33 <= c <= 126)%N) url0.
Proof.
  intros E. apply rss_url_inv in E as (bs & Eb & ->).
  assert (Hlit : forall s : pystr,
             forallb (fun c => (33 <=? c) && (c <=? 126))%N s = true ->
             Forall (fun c => (33 <= c <= 126)%N) s).
  { intros s H. apply Forall_forall. intros c Hc.
    rewrite forallb_forall in H. specialize (H c Hc). bool_to_prop. exact H. }
  repeat (apply Forall_app; split); try (apply Hlit; vm_compute; reflexivity).
  pose proof (utf8_encode_bytes query bs Eb) as Hb. clear Eb.
  induction Hb as [|b bs' Hb _ IH]; cbn [flat_map]; [constructor|].
  apply Forall_app. split; [|exact IH].
  eapply Forall_impl; [|exact (quote_byte_chars b Hb)].
  intros c [Hc| ->]; [|lia].
  unfold url_safe, always_safe in Hc. bool_to_prop. lia.
Qed.

Lemma rss_url_printable_witness :
  Forall (fun c => (33 <= c <= 126)%N)
    (u "https://news.google.com/rss/search?q=S%C3%A3o%20Paulo%20when%3A21d&hl=en-US&gl=US&ceid=US:en").
Proof.
  apply (rss_url_printable (u "São Paulo when:21d")).
  vm_compute. reflexivity.
Defined.

Lemma quote_safe (s : pystr) :
  forallb url_safe s = true ->
  exists bs, utf8_encode s = Some bs /\ flat_map quote_byte bs = s.
Proof.
  induction s as [|c s IH]; cbn [forallb utf8_encode]; intros H.
  - exists []. split; reflexivity.
  - apply andb_true_iff in H as [Hc Hs].
    destruct (IH Hs) as (bs & -> & Eq).
    assert (H128 : (c <? 128)%N = true).
    { unfold url_safe, always_safe in Hc. bool_to_prop. lia. }
    unfold utf8_encode_cp. rewrite H128.
    exists ([c] ++ bs). split; [reflexivity|].
    cbn [app flat_map]. rewrite Eq. unfold quote_byte.
    fold (url_safe c). rewrite Hc. reflexivity.
Qed.

Lemma utf8_encode_app (s1 s2 : pystr) (b1 b2 : list N) :
  utf8_encode s1 = Some b1 -> utf8_encode s2 = Some b2 ->
  utf8_encode (s1 ++ s2) = Some (b1 ++ b2).
Proof.
  revert b1. induction s1 as [|c s1 IH]; intros b1; cbn [utf8_encode app].
  - intros [= <-] E. exact E.
  - destruct (utf8_encode_cp c) as [bc|]; [|discriminate].
    destruct (utf8_encode s1) as [bs|]; [|discriminate].
    intros [= <-] E2. rewrite (IH bs eq_refl E2).
    rewrite app_assoc. reflexivity.
Qed.

(** A city name made of ASCII letters, digits and [_.-~/] goes into
    the feed URL as it is, followed by the encoded " when:21d". *)
Theorem rss_url_plain_city (name : pystr) :
  forallb url_safe name = true ->
  rss_url_default (name ++ u " when:21d") =
    Ok (u "https://news.google.com/rss/search?q=" ++ name ++
        u "%20when%3A21d&hl=en-US&gl=US&ceid=US:en").
Proof.
  intros H. destruct (quote_safe name H) as (bs & Eb & Eq).
  unfold rss_url_default.
  rewrite (rss_url_ok _ _ _ _ _
             (utf8_encode_app name (u " when:21d") bs _ Eb eq_refl)).
  rewrite flat_map_app, Eq. f_equal. f_equal.
  rewrite <- app_assoc. f_equal.
Qed.

Lemma rss_url_plain_city_witness :
  rss_url_default (u "Buenos-Aires" ++ u " when:21d") =
    Ok (u "https://news.google.com/rss/search?q=" ++ u "Buenos-Aires" ++
        u "%20when%3A21d&hl=en-US&gl=US&ceid=US:en").
Proof.
  apply (rss_url_plain_city (u "Buenos-Aires")).
  vm_compute. reflexivity.
Defined.

(** ** Blank titles and links *)

Lemma lstrip_blank (s : pystr) : forallb isspace s = true -> lstrip s = [].
Proof.
  induction s as [|c s IH]; simpl; [reflexivity|].
  intros H. apply andb_true_iff in H as [Hc Hs]. rewrite Hc. exact (IH Hs).
Qed.

Lemma lstrip_split (s : pystr) :
  exists blanks, s = blanks ++ lstrip s /\ forallb isspace blanks = true.
Proof.
  induction s as [|c s (blanks & E & Hb)]; simpl.
  - exists []. split; reflexivity.
  - destruct (isspace c) eqn:Ec.
    + exists (c :: blanks). simpl. rewrite Ec, Hb, <- E. split; reflexivity.
    + exists []. split; reflexivity.
Qed.

Lemma rstrip_blank (s : pystr) :
  rstrip s = [] <-> forallb isspace s = true.
Proof.
  induction s as [|c s IH]; simpl; [tauto|].
  destruct (rstrip s) as [|r0 r].
  - destruct (isspace c); simpl.
    + split; [intros _; apply IH; reflexivity | reflexivity].
    + split; discriminate.
  - split; [discriminate|]. intros H.
    apply andb_true_iff in H as [_ Hs]. apply IH in Hs. discriminate.
Qed.

Lemma strip_blank (s : pystr) :
  strip s = [] <-> forallb isspace s = true.
Proof.
  unfold strip. rewrite rstrip_blank. split.
  - intros H. destruct (lstrip_split s) as (blanks & E & Hb).
    rewrite E, forallb_app, Hb, H. reflexivity.
  - intros H. rewrite (lstrip_blank s H). reflexivity.
Qed.

Lemma strip_not_blank (s : pystr) :
  forallb isspace s = false -> strip s <> [].
Proof.
  intros H E. apply strip_blank in E. congruence.
Qed.

(** An entry whose title or link is missing or blank is passed over
    before any request is made; for every other entry exactly the
    request for its stripped link is made. *)
Theorem blank_entry_not_requested (World : Type)
    (requests_get : pystr -> IO World pystr) (e : Entry)
    (acc : list Story) (w : World) :
  (forallb isspace (getattr (title e) []) = true \/
   forallb isspace (getattr (link e) []) = true ->
   loop_body requests_get e acc w = (Ok (Next acc), w)) /\
  (forallb isspace (getattr (title e) []) = false ->
   forallb isspace (getattr (link e) []) = false ->
   snd (loop_body requests_get e acc w) =
     snd (requests_get (strip (getattr (link e) [])) w)).
Proof.
  rewrite loop_body_run. split.
  - intros [H|H]; apply strip_blank in H; rewrite H; simpl.
    + reflexivity.
    + rewrite orb_true_r. reflexivity.
  - intros Ht Hl.
    rewrite (is_empty_false _ (strip_not_blank _ Ht)).
    rewrite (is_empty_false _ (strip_not_blank _ Hl)).
    simpl orb. cbv iota zeta.
    destruct (contains _ _); [reflexivity|].
    destruct (4 <=? _); reflexivity.
Qed.

(** ** The stories of a city *)

Lemma resolve_loop_kept (World : Type)
    (requests_get : pystr -> IO World pystr) (entries : list Entry) :
  forall (acc : list Story) (w : World),
  exists found w',
    resolve_loop requests_get entries acc w = (Ok (acc ++ found), w') /\
    kept requests_get found entries /\
    (length acc < 4 -> length (acc ++ found) <= 4).
Proof.
  induction entries as [|e entries IH]; intros acc w.
  - exists [], w. rewrite app_nil_r.
    split; [reflexivity|]. split; [constructor | lia].
  - cbn [resolve_loop].
    destruct (loop_body_cases World requests_get e acc w)
      as (w1 & [Eb | (Ht & Hl & Hc & [[Hlt Eb] | [Hge Eb]])]);
      rewrite (bind_ok _ _ _ _ _ Eb).
    + destruct (IH acc w1) as (found & w' & E & Hk & Hlen).
      exists found, w'. split; [exact E|].
      split; [apply kept_skip; exact Hk | exact Hlen].
    + destruct (IH (acc ++ [story_of requests_get e w]) w1)
        as (found & w' & E & Hk & Hlen).
      exists (story_of requests_get e w :: found), w'.
      rewrite <- app_assoc in E, Hlen. cbn [app] in E, Hlen.
      split; [exact E|].
      split; [apply kept_take; assumption|].
      intros _. apply Hlen. rewrite length_app. cbn [length]. lia.
    + exists [story_of requests_get e w], w1.
      split; [reflexivity|].
      split; [apply kept_take; [assumption..|constructor]|].
      intros Hacc. rewrite length_app. cbn [length]. lia.
Qed.

(** The stories of a city are the entries the resolve loop kept, in
    feed order and at most four, followed by the raw entries at the
    positions [len(stories)], [len(stories) + 1], ... of the first
    eight, until four stories are there or the entries run out. *)
Theorem city_stories_shape (World : Type)
    (requests_get : pystr -> IO World pystr) (feed : list Entry)
    (w : World) :
  exists found w',
    city_stories requests_get feed w =
      (Ok (found ++
           map rss_story
             (firstn (4 - length found)
                (skipn (length found) (firstn 8 feed)))), w') /\
    kept requests_get found (firstn 8 feed) /\
    length found <= 4.
Proof.
  destruct (resolve_loop_kept World requests_get (firstn 8 feed) [] w)
    as (found & w' & E & Hk & Hlen).
  cbn [app] in E, Hlen.
  exists found, w'. unfold city_stories.
  rewrite (bind_ok _ _ _ _ _ E). unfold ret.
  rewrite backfill_positions.
  split; [reflexivity|]. split; [exact Hk|].
  apply Hlen. cbn [length]. lia.
Qed.

(** ** Nothing resolves *)

Lemma resolve_loop_none (World : Type)
    (requests_get : pystr -> IO World pystr) (entries : list Entry) :
  (forall e w, In e entries ->
     is_empty (strip (getattr (title e) [])) ||
     is_empty (strip (getattr (link e) [])) ||
     contains (u "news.google")
       (resolved requests_get (strip (getattr (link e) [])) w) = true) ->
  forall (acc : list Story) (w : World),
  exists w', resolve_loop requests_get entries acc w = (Ok acc, w').
Proof.
  induction entries as [|e entries IH]; intros Hall acc w.
  - exists w. reflexivity.
  - cbn [resolve_loop].
    assert (Eb : exists w1,
               loop_body requests_get e acc w = (Ok (Next acc), w1)).
    { rewrite loop_body_run.
      pose proof (Hall e w (or_introl eq_refl)) as H.
      destruct (is_empty (strip (getattr (title e) [])) ||
                is_empty (strip (getattr (link e) []))); [eauto|].
      simpl in H. cbv zeta. rewrite H. eauto. }
    destruct Eb as (w1 & Eb). rewrite (bind_ok _ _ _ _ _ Eb).
    apply IH. intros x v Hx. apply Hall. right. exact Hx.
Qed.

(** When none of the first eight entries resolves to a URL outside
    the aggregator (the title or the link is blank, or the resolved
    URL still holds "news.google", as it does when every request
    fails), the stories are the first four entries as the feed has
    them. *)
Theorem nothing_resolved_backfills (World : Type)
    (requests_get : pystr -> IO World pystr) (feed : list Entry)
    (w : World) :
  (forall e w1, In e (firstn 8 feed) ->
     is_empty (strip (getattr (title e) [])) ||
     is_empty (strip (getattr (link e) [])) ||
     contains (u "news.google")
       (resolved requests_get (strip (getattr (link e) [])) w1) = true) ->
  fst (city_stories requests_get feed w) =
    Ok (map rss_story (firstn 4 feed)).
Proof.
  intros Hall. unfold city_stories.
  destruct (resolve_loop_none World requests_get (firstn 8 feed) Hall [] w)
    as (w' & E).
  rewrite (bind_ok _ _ _ _ _ E). unfold ret. cbn [fst].
  rewrite backfill_positions. cbn [length app skipn].
  change (4 - 0) with 4. rewrite firstn_firstn. reflexivity.
Qed.

Lemma nothing_resolved_backfills_witness :
  fst (city_stories Sample.requests_get
         [Sample.stuck;
          {| title := Some (u "  "); link := None; source := None;
             publisher := None; author := None |}] 0%Z) =
    Ok (map rss_story
          (firstn 4
             [Sample.stuck;
              {| title := Some (u "  "); link := None; source := None;
                 publisher := None; author := None |}])).
Proof.
  apply (nothing_resolved_backfills Sample.World Sample.requests_get
           [Sample.stuck;
            {| title := Some (u "  "); link := None; source := None;
               publisher := None; author := None |}] 0%Z).
  intros e w1 He. simpl in He.
  repeat (destruct He as [<-|He]; [vm_compute; reflexivity|]).
  destruct He.
Defined.

(** ** The fields of stories and cards *)

Lemma src_name_filled (e : Entry) : src_name e <> [].
Proof.
  unfold src_name.
  destruct (source e) as [[[[|c t]|]]|]; cbn [getattr source_title];
    try discriminate;
    destruct (publisher e) as [[|c p]|]; cbn [getattr str_or];
    try discriminate;
    destruct (author e) as [[|c a]|]; cbn [getattr str_or]; discriminate.
Qed.

Lemma slice_to_filled (n : nat) (s : pystr) :
  s <> [] -> slice_to (S n) s <> [].
Proof. destruct s; [intros H; elim H; reflexivity | discriminate]. Qed.

Lemma rss_story_filled (e : Entry) : story_filled (rss_story e).
Proof.
  unfold story_filled, rss_story. cbn [headline story_source url].
  split.
  { destruct (strip (getattr (title e) [])); simpl; discriminate. }
  split; [discriminate|].
  split; [vm_compute; lia | reflexivity].
Qed.

Lemma kept_filled (World : Type) (requests_get : pystr -> IO World pystr)
    (found : list Story) (entries : list Entry) :
  kept requests_get found entries -> Forall story_filled found.
Proof.
  induction 1 as [| |e entries found w Ht Hl Hc _ IH];
    [constructor | assumption |].
  constructor; [|exact IH].
  unfold story_filled, story_of in *. cbn [headline story_source url] in *.
  split; [exact Ht|].
  split; [apply slice_to_filled, src_name_filled|].
  split; [unfold slice_to; rewrite length_firstn; lia|].
  rewrite Hc. discriminate.
Qed.

Lemma city_stories_filled (World : Type)
    (requests_get : pystr -> IO World pystr) (feed : list Entry)
    (w w' : World) (all : list Story) :
  city_stories requests_get feed w = (Ok all, w') ->
  Forall story_filled all.
Proof.
  unfold city_stories. intros E.
  destruct (resolve_loop_kept World requests_get (firstn 8 feed) [] w)
    as (found & w1 & E1 & Hk & _).
  cbn [app] in E1. rewrite (bind_ok _ _ _ _ _ E1) in E. unfold ret in E.
  assert (Hall : all = backfill (firstn 8 feed) found) by congruence.
  subst all. clear E. rewrite backfill_positions.
  apply Forall_app. split.
  - exact (kept_filled World requests_get found _ Hk).
  - apply Forall_forall. intros s Hs.
    apply in_map_iff in Hs as (e & <- & _). apply rss_story_filled.
Qed.

Lemma starters_yesterday (lead text : pystr) :
  In lead starters -> startswith (u "Yesterday, ") (lead ++ text) = true.
Proof.
  intros H. repeat (destruct H as [<-|H]; [reflexivity|]). destruct H.
Qed.

Lemma card_of_fields (World : Type) (unix_time : World -> Z * World)
    (c : Card) (s : Story) :
  card_of unix_time c s ->
  In (emoji c) (map snd EMOJI_RULES ++ [DEFAULT_EMOJI]) /\
  startswith (u "Yesterday, ") (clue c) = true.
Proof.
  intros [Hem (wc & Hcl)]. split.
  - rewrite Hem. apply first_rule_in.
  - rewrite clue_from_title_run in Hcl. cbn [fst] in Hcl.
    assert (Hc : clue c = starter_at (fst (unix_time wc)) ++
                          shorten (strip_city (headline s))) by congruence.
    rewrite Hc. apply starters_yesterday, starter_at_in.
Qed.

(** In every pack each story has a headline and a source of 1 to 40
    characters, a story whose URL still holds "news.google" is
    labelled "Google News", and each card carries one of the eleven
    emoji and a clue that opens with "Yesterday, ". *)
Theorem pack_fields_filled (World : Type)
    (unix_time : World -> Z * World)
    (requests_get : pystr -> IO World pystr)
    (feed_entries : pystr -> IO World (list Entry))
    (item : CityItem) (w w0 : World) (feed_url : pystr)
    (feed : list Entry) :
  rss_url_default (city item ++ u " when:21d") = Ok feed_url ->
  feed_entries feed_url w = (Ok feed, w0) ->
  exists p w',
    city_pack unix_time requests_get feed_entries item w = (Ok p, w') /\
    Forall story_filled (stories p) /\
    Forall (fun c =>
              In (emoji c)
                 [u "🚇"; u "🌧️"; u "🏛️"; u "⚖️"; u "🎶"; u "🎭"; u "🏟️";
                  u "🍽️"; u "💻"; u "⚓️"; u "📰"] /\
              startswith (u "Yesterday, ") (clue c) = true)
           (cards p).
Proof.
  intros Eurl Efeed.
  destruct (city_pack_run World unix_time requests_get feed_entries
              item w w0 feed_url feed Eurl Efeed)
    as (all & cs & w1 & w2 & Eall & Ep & Hcs).
  eexists _, w2. split; [exact Ep|]. cbn [stories cards]. split.
  - pose proof (city_stories_filled World requests_get feed w0 w1 all Eall)
      as Hall.
    rewrite <- (firstn_skipn 4 all) in Hall.
    apply Forall_app in Hall as [Hall _]. exact Hall.
  - clear Ep. induction Hcs as [|c s cs' ss Hc _ IH]; constructor.
    + exact (card_of_fields World unix_time c s Hc).
    + exact IH.
Qed.

Lemma pack_fields_filled_witness :
  exists p w',
    city_pack Sample.unix_time Sample.requests_get Sample.feed_entries
      {| city := u "Lyon" |} 0%Z = (Ok p, w') /\
    Forall story_filled (stories p) /\
    Forall (fun c =>
              In (emoji c)
                 [u "🚇"; u "🌧️"; u "🏛️"; u "⚖️"; u "🎶"; u "🎭"; u "🏟️";
                  u "🍽️"; u "💻"; u "⚓️"; u "📰"] /\
              startswith (u "Yesterday, ") (clue c) = true)
           (cards p).
Proof.
  apply (pack_fields_filled Sample.World Sample.unix_time
           Sample.requests_get Sample.feed_entries
           {| city := u "Lyon" |} 0%Z 0%Z
           (u "https://news.google.com/rss/search?q=Lyon%20when%3A21d&hl=en-US&gl=US&ceid=US:en")
           Sample.feed_short).
  - vm_compute. reflexivity.
  - vm_compute. reflexivity.
Defined.

(** ** A city name that cannot be encoded *)

Lemma city_pack_raises (World : Type) (unix_time : World -> Z * World)
    (requests_get : pystr -> IO World pystr)
    (feed_entries : pystr -> IO World (list Entry))
    (item : CityItem) (c : cp) (w : World) :
  In c (city item) -> surrogate c = true ->
  city_pack unix_time requests_get feed_entries item w =
    (Raise (Exception (u "UnicodeEncodeError")), w).
Proof.
  intros Hin Hs. unfold city_pack. cbv zeta. unfold bind at 1.
  unfold from_result, rss_url_default.
  rewrite rss_url_raise; [reflexivity|].
  apply (utf8_encode_none _ c); [|exact Hs].
  apply in_or_app. left. exact Hin.
Qed.

(** One city whose name holds a surrogate, anywhere in the list, and
    the run raises: no pack of any city is returned. *)
Theorem surrogate_city_stops_run (World : Type)
    (unix_time : World -> Z * World)
    (requests_get : pystr -> IO World pystr)
    (feed_entries : pystr -> IO World (list Entry))
    (cities : list CityItem) (item : CityItem) (c : cp) (w : World) :
  In item cities -> In c (city item) -> (55296 <= c <= 57343)%N ->
  exists x w',
    main_packs unix_time requests_get feed_entries cities w = (Raise x, w').
Proof.
  intros Hitem Hc Hs.
  assert (Hsur : surrogate c = true).
  { unfold surrogate. bool_to_prop. exact Hs. }
  revert w. induction cities as [|item0 cities IH]; intros w;
    [destruct Hitem|].
  cbn [main_packs]. unfold bind at 1.
  destruct (city_pack unix_time requests_get feed_entries item0 w)
    as [[p|x] w1] eqn:Ep; [|eauto].
  destruct Hitem as [->|Hitem].
  - rewrite (city_pack_raises World unix_time requests_get feed_entries
               item c w Hc Hsur) in Ep. discriminate.
  - destruct (IH Hitem w1) as (x & w' & E).
    unfold bind at 1. rewrite E. eauto.
Qed.

Lemma surrogate_city_stops_run_witness :
  exists x w',
    main_packs Sample.unix_time Sample.requests_get Sample.feed_entries
      [ {| city := u "Paris" |}; {| city := u "Lyon " ++ [55357%N] |} ] 0%Z
    = (Raise x, w').
Proof.
  apply (surrogate_city_stops_run Sample.World Sample.unix_time
           Sample.requests_get Sample.feed_entries
           [ {| city := u "Paris" |}; {| city := u "Lyon " ++ [55357%N] |} ]
           {| city := u "Lyon " ++ [55357%N] |} 55357%N 0%Z).
  - right. left. reflexivity.
  - vm_compute. tauto.
  - lia.
Defined.

(** ** After the fourth story *)

Lemma resolve_loop_break (World : Type)
    (requests_get : pystr -> IO World pystr) (pre post : list Entry) :
  forall (acc ss : list Story) (w w' : World),
    resolve_loop requests_get pre acc w = (Ok ss, w') ->
    length acc < 4 -> 4 <= length ss ->
    resolve_loop requests_get (pre ++ post) acc w = (Ok ss, w').
Proof.
  induction pre as [|e pre IH]; intros acc ss w w' E Hacc Hss.
  - simpl in E. unfold ret in E.
    assert (ss = acc) by congruence. subst ss. lia.
  - cbn [app resolve_loop]. cbn [resolve_loop] in E.
    destruct (loop_body_cases World requests_get e acc w)
      as (w1 & [Eb | (_ & _ & _ & [[Hlt Eb] | [Hge Eb]])]);
      rewrite (bind_ok _ _ _ _ _ Eb) in E;
      rewrite (bind_ok _ _ _ _ _ Eb).
    + exact (IH acc ss w1 w' E Hacc Hss).
    + apply (IH _ ss w1 w' E); [|exact Hss].
      rewrite length_app. cbn [length]. lia.
    + exact E.
Qed.

(** Once four stories are resolved the loop is left: whatever entries
    follow in the feed, the stories and the state of the world are the
    same, so no request is made for them. *)
Theorem no_request_after_four (World : Type)
    (requests_get : pystr -> IO World pystr) (pre post : list Entry)
    (ss : list Story) (w w' : World) :
  resolve_loop requests_get pre [] w = (Ok ss, w') ->
  4 <= length ss ->
  resolve_loop requests_get (pre ++ post) [] w = (Ok ss, w') /\
  length ss = 4.
Proof.
  intros E Hss. split.
  - apply (resolve_loop_break World requests_get pre post [] ss w w' E);
      [cbn [length]; lia | exact Hss].
  - destruct (resolve_loop_length World requests_get pre [] ss w w' E)
      as [H4 _]; [cbn [length]; lia | lia].
Qed.

Lemma no_request_after_four_witness :
  resolve_loop Sample.requests_get
    ([Sample.e2; Sample.e3; Sample.e4; Sample.e5] ++
     [Sample.e6; Sample.e7; Sample.e8; Sample.e9]) [] 0%Z =
    (Ok (map (fun e => story_of Sample.requests_get e 0%Z)
           [Sample.e2; Sample.e3; Sample.e4; Sample.e5]), 4%Z) /\
  length (map (fun e => story_of Sample.requests_get e 0%Z)
            [Sample.e2; Sample.e3; Sample.e4; Sample.e5]) = 4.
Proof.
  apply (no_request_after_four Sample.World Sample.requests_get
           [Sample.e2; Sample.e3; Sample.e4; Sample.e5]
           [Sample.e6; Sample.e7; Sample.e8; Sample.e9]).
  - vm_compute. reflexivity.
  - vm_compute. lia.
Defined.
